(** * nix-channels.py: a shallow embedding and its verified properties

    The script mirrors Nix channels.  [clone_channels] downloads the files of
    each channel's current release and stages a symlink; [update_channels]
    mirrors the binary-cache closure of every staged release and promotes the
    symlink; [garbage_collect] removes store entries that no retained release
    reaches.  The embedding keeps the script's names.  The file system, the
    global [failure] flag and the trace of observable events are threaded
    through a state-and-exception monad; everything outside the script (the
    HTTP servers, the S3 bucket, [nix path-info], hashlib, lzma, strptime) is
    a field of the record [Extern]. *)

From Stdlib Require Import ZArith Ascii.
From stdpp Require Import gmap strings list fin_maps pretty.

Local Open Scope Z_scope.

(** ** Python [str] operations used by the script *)

(** [s.startswith(p)] *)
Fixpoint str_startswith (p s : string) : bool :=
  match p, s with
  | "", _ => true
  | String a p', String b s' => bool_decide (a = b) && str_startswith p' s'
  | String _ _, "" => false
  end.

(** [s[n:]] *)
Fixpoint str_drop (n : nat) (s : string) : string :=
  match n, s with
  | O, _ => s
  | S n', String _ s' => str_drop n' s'
  | S _, "" => ""
  end.

(** [s.endswith(p)] *)
Definition str_endswith (p s : string) : bool :=
  str_startswith (String.rev p) (String.rev s).

(** [sub in s] *)
Fixpoint str_contains (sub s : string) : bool :=
  str_startswith sub s ||
  match s with
  | "" => false
  | String _ s' => str_contains sub s'
  end.

(** [sub] occurs somewhere in [s]. *)
Definition occurs (sub s : string) : Prop :=
  ∃ a b, s = a +:+ sub +:+ b.

(** [s.replace(old, new)] for a non-empty [old]: scan from the left; at an
    occurrence of [old] emit [new] and skip the occurrence, otherwise copy
    one character.  [fuel] bounds the scan by the length of [s]. *)
Fixpoint str_replace_from (fuel : nat) (old new s : string) : string :=
  match fuel with
  | O => s
  | S fuel' =>
      if str_startswith old s
      then new +:+ str_replace_from fuel' old new (str_drop (String.length old) s)
      else match s with
           | "" => ""
           | String c s' => String c (str_replace_from fuel' old new s')
           end
  end.

Definition str_replace (old new s : string) : string :=
  str_replace_from (S (String.length s)) old new s.

(** [sep.join(parts)] *)
Fixpoint str_join (sep : string) (parts : list string) : string :=
  match parts with
  | [] => ""
  | [p] => p
  | p :: ps => p +:+ sep +:+ str_join sep ps
  end.

(** [s.split(sep, 1)] for a non-empty [sep]: [Some (a, b)] when the list has
    two elements [a, b], [None] when [sep] does not occur and the list is
    [[s]]. *)
Fixpoint str_split_once (sep s : string) {struct s} : option (string * string) :=
  if str_startswith sep s then Some ("", str_drop (String.length sep) s)
  else match s with
       | "" => None
       | String c s' =>
           match str_split_once sep s' with
           | Some (a, b) => Some (String c a, b)
           | None => None
           end
       end.

(** [s.split(sep, 1)[0]] *)
Definition str_before (sep s : string) : string :=
  match str_split_once sep s with
  | Some (a, _) => a
  | None => s
  end.

(** Split at the last ["/"]: [Some (parent, name)], or [None] when [s] has
    no ["/"]. *)
Fixpoint rsplit_slash (s : string) : option (string * string) :=
  match s with
  | "" => None
  | String c s' =>
      match rsplit_slash s' with
      | Some (d, n) => Some (String c d, n)
      | None => if bool_decide (c = "/"%char) then Some ("", s') else None
      end
  end.

(** [s.split('/')[-1]] *)
Definition str_after_last_slash (s : string) : string :=
  match rsplit_slash s with
  | Some (_, n) => n
  | None => s
  end.

(** [s.rstrip()] *)
Fixpoint str_rstrip (s : string) : string :=
  match s with
  | "" => ""
  | String c s' =>
      match str_rstrip s' with
      | "" => if Ascii.is_space c then "" else String c ""
      | r => String c r
      end
  end.

(** [s.splitlines()], with the line boundaries LF, CR and CRLF.  [cr] tells
    that the previous character was a CR, [cur] is the current line,
    reversed. *)
Fixpoint splitlines_go (cr : bool) (cur s : string) : list string :=
  match s with
  | "" => match cur with "" => [] | _ => [String.rev cur] end
  | String c s' =>
      if bool_decide (c = "010"%char) then
        if cr then splitlines_go false "" s'
        else String.rev cur :: splitlines_go false "" s'
      else if bool_decide (c = "013"%char) then
        String.rev cur :: splitlines_go true "" s'
      else splitlines_go false (String c cur) s'
  end.

Definition str_splitlines (s : string) : list string :=
  splitlines_go false "" s.

(** [s.split(",")] *)
Fixpoint split_comma_go (cur s : string) : list string :=
  match s with
  | "" => [String.rev cur]
  | String c s' =>
      if bool_decide (c = ","%char) then String.rev cur :: split_comma_go "" s'
      else split_comma_go (String c cur) s'
  end.

Definition str_split_comma (s : string) : list string := split_comma_go "" s.

(** The line feed, ["\n"]. *)
Definition LF : string := String "010"%char "".

(** [hash_part], lines 283-284. *)
Definition hash_part (path : string) : string :=
  str_before "-" (str_after_last_slash path).

(** The first line of [s]: [.] in a Python regular expression does not match
    a line feed. *)
Fixpoint first_line (s : string) : string :=
  match s with
  | "" => ""
  | String c s' => if bool_decide (c = "010"%char) then "" else String c (first_line s')
  end.

(** The longest [a] with [s = a ++ sep ++ b] for some [b]. *)
Fixpoint str_before_last (sep s : string) : option string :=
  match s with
  | "" => if str_startswith sep "" then Some "" else None
  | String c s' =>
      match str_before_last sep s' with
      | Some a => Some (String c a)
      | None => if str_startswith sep s then Some "" else None
      end
  end.

(** [re.match(r'^Released on (.+) from', tagline)], line 219: group 1 of the
    match, the greedy [.+] being the longest non-empty text before a
    [" from"] on the first line. *)
Definition tagline_match (tagline : string) : option string :=
  if str_startswith "Released on " tagline then
    match str_before_last " from" (first_line (str_drop 12 tagline)) with
    | Some (String c a) => Some (String c a)
    | _ => None
    end
  else None.

(** [.+[^/]] against a whole string: at least two characters, no line feed
    before the last one, and the last one is not a slash. *)
Fixpoint dotplus_nonslash (s : string) : bool :=
  match s with
  | "" => false
  | String _ "" => false
  | String c (String d "" as s') =>
      negb (bool_decide (c = "010"%char)) && negb (bool_decide (d = "/"%char))
  | String c s' => negb (bool_decide (c = "010"%char)) && dotplus_nonslash s'
  end.

(** [re.fullmatch(r'(nixos|nixpkgs)-.+[^/]', name)], line 159. *)
Definition channel_name_ok (name : string) : bool :=
  (str_startswith "nixos-" name && dotplus_nonslash (str_drop 6 name))
  || (str_startswith "nixpkgs-" name && dotplus_nonslash (str_drop 8 name)).

(** ** Dates

    A [datetime] is the number of microseconds since 1970-01-01 00:00 UTC. *)

Definition days_from_civil (y m d : Z) : Z :=
  let y' := if m <=? 2 then y - 1 else y in
  let era := y' / 400 in
  let yoe := y' - era * 400 in
  let mp := if 2 <? m then m - 3 else m + 9 in
  let doy := (153 * mp + 2) / 5 + d - 1 in
  let doe := yoe * 365 + yoe / 4 - yoe / 100 + doy in
  era * 146097 + doe - 719468.

(** [datetime(y, m, d, tzinfo=pytz.utc)] *)
Definition datetime_utc (y m d : Z) : Z :=
  days_from_civil y m d * 86400 * 1000000.

(** Line 54. *)
Definition CLONE_SINCE : Z := datetime_utc 2020 3 6.

(** ** Exceptions, results and the outside world *)

Inductive exn :=
| ConnectionError (msg : string)     (* requests.exceptions.ConnectionError *)
| WrongSize (expected actual : nat)  (* lines 105-109 *)
| HTTPError (status : nat)           (* raised by raise_for_status *)
| MaxRetryError (cause : exn)        (* urllib3.exceptions.MaxRetryError *)
| OSError (path : string)            (* FileNotFoundError, FileExistsError, ... *)
| ValueError (what : string)
| KeyError (key : string)
| OtherError (what : string).

Inductive outcome (A : Type) :=
| Ok (a : A)
| Raise (e : exn).
Arguments Ok {A} a.
Arguments Raise {A} e.

(** What the server does with one request: the connection fails inside
    [session.get], or a response arrives whose body streams [chunks] and then
    ends, or breaks with [stream_error]. *)
Record response := {
  status_code : nat;
  content_length : option nat;   (* the Content-Length header, when present *)
  chunks : list string;          (* what iter_content yields *)
  stream_error : option exn      (* raised by iter_content after the chunks *)
}.

Inductive reply :=
| ConnFailed (e : exn)
| Replied (r : response).

(** [res.text] of a response that was not streamed. *)
Definition response_text (r : response) : string :=
  foldr String.app "" (chunks r).

(** The environment variables of lines 25-44 and the values derived from
    them.  [RETAIN_DAYS] is the [timedelta] of that many days, in
    microseconds; [CACHE_PRIORITY] is [str(CACHE_PRIORITY)]. *)
Record Config := {
  MIRROR_BASE_URL : string;
  WORKING_DIR : string;
  PATH_BATCH : Z;
  THREADS : Z;
  DELETE_OLD : bool;
  RETAIN_DAYS : Z;
  SAVE_STATS : bool;
  COLLECT_GARBAGE : bool;
  SET_CACHE_PRIORITY : bool;
  CACHE_PRIORITY : string;
  CHANNEL_MATCH_SUBSTRING : string;
  CHANNELS_LIST : string;
  stats_timestamp : string
}.

(** The collaborators of the script.  [http n url] is the server's reply to
    the [n]-th request of the run when it asks for [url]. *)
Record Extern := {
  sha256_hex : string → string;
  list_objects : list (string * Z);
  redirect_location : string → outcome string;
  http : nat → string → reply;
  pq_tagline : string → string;
  pq_rows : string → list (list string);
  path_info_json : string → list string → Z * list (string * string);
  path_info_local : gmap string string → list string → list string;
  lzma_lines : string → outcome (list string);
  strptime : string → outcome Z;
  now : Z
}.

(** ** The state of a run

    Paths are relative to [working_dir].  Directories exist implicitly,
    except that [dirs] records the ones [mkdir] created.  [undeletable] holds
    the paths whose [unlink] the operating system refuses. *)

Inductive event :=
| EvGetObject (channel : string)              (* client.get_object *)
| EvHttpGet (url : string)                    (* session.get *)
| EvPathInfo (store : string) (batch : list string)   (* nix path-info *)
| EvMkdir (path : string)
| EvOpenWrite (path : string)                 (* open for writing: create or truncate *)
| EvWriteChunk (path data : string)           (* f.write(data) *)
| EvRename (src dst : string)
| EvUnlink (path : string)
| EvSymlink (path target : string).

Record FS := {
  files : gmap string string;   (* regular files and their contents *)
  links : gmap string string;   (* symlinks and their targets *)
  dirs : gset string
}.

Record World := {
  fs : FS;
  undeletable : gset string;
  failure : bool;             (* the global of line 82 *)
  requests : nat;             (* HTTP requests issued so far *)
  trace : list event          (* oldest event first *)
}.

(** The effect of one event on the file system. *)
Definition apply_event (e : event) (s : FS) : FS :=
  match e with
  | EvGetObject _ | EvHttpGet _ | EvPathInfo _ _ => s
  | EvMkdir p => {| files := files s; links := links s; dirs := {[p]} ∪ dirs s |}
  | EvOpenWrite p =>
      {| files := <[p := ""]> (files s); links := links s; dirs := dirs s |}
  | EvWriteChunk p data =>
      {| files := <[p := default "" (files s !! p) +:+ data]> (files s);
         links := links s; dirs := dirs s |}
  | EvRename src dst =>
      match files s !! src, links s !! src with
      | Some c, _ =>
          {| files := <[dst := c]> (delete src (files s));
             links := delete dst (links s); dirs := dirs s |}
      | None, Some t =>
          {| files := delete dst (files s);
             links := <[dst := t]> (delete src (links s)); dirs := dirs s |}
      | None, None => s
      end
  | EvUnlink p =>
      {| files := delete p (files s); links := delete p (links s); dirs := dirs s |}
  | EvSymlink p t =>
      {| files := files s; links := <[p := t]> (links s); dirs := dirs s |}
  end.

(** The file system after a list of events. *)
Definition replay (es : list event) (s : FS) : FS :=
  foldl (λ s e, apply_event e s) s es.

(** ** The monad: state, exceptions, and a bound on loops

    A computation returns [None] only when a [while True] loop was cut off
    by its bound. *)

Definition M (A : Type) : Type := World → option (World * outcome A).

Definition ret {A} (a : A) : M A := λ w, Some (w, Ok a).

Definition raise {A} (e : exn) : M A := λ w, Some (w, Raise e).

Definition bind {A B} (c : M A) (k : A → M B) : M B :=
  λ w, match c w with
       | None => None
       | Some (w', Ok a) => k a w'
       | Some (w', Raise e) => Some (w', Raise e)
       end.

Notation "'let*' x ':=' c 'in' k" := (bind c (λ x, k))
  (at level 10, x name, c at level 100, k at level 200, only parsing).
Notation "'do' c 'then' k" := (bind c (λ _, k))
  (at level 10, c at level 100, k at level 200, only parsing).

(** [try: c  except <handles>: h e] *)
Definition try_except {A} (c : M A) (handles : exn → bool) (h : exn → M A) : M A :=
  λ w, match c w with
       | Some (w', Raise e) => if handles e then h e w' else Some (w', Raise e)
       | r => r
       end.

Definition lift {A} (o : outcome A) : M A := λ w, Some (w, o).

Definition get_world : M World := λ w, Some (w, Ok w).

Definition emit (e : event) : M unit :=
  λ w, Some ({| fs := apply_event e (fs w); undeletable := undeletable w;
                failure := failure w; requests := requests w;
                trace := trace w ++ [e] |}, Ok tt).

(** [global failure; failure = True] *)
Definition set_failure : M unit :=
  λ w, Some ({| fs := fs w; undeletable := undeletable w; failure := true;
                requests := requests w; trace := trace w |}, Ok tt).

Definition count_request : M nat :=
  λ w, Some ({| fs := fs w; undeletable := undeletable w; failure := failure w;
                requests := S (requests w); trace := trace w |},
             Ok (requests w)).

(** [for x in l: body x], stopping at the first exception. *)
Fixpoint for_each {A} (l : list A) (body : A → M unit) : M unit :=
  match l with
  | [] => ret tt
  | x :: l' => do body x then for_each l' body
  end.

(** *** File-system primitives *)

Definition is_symlink (p : string) (w : World) : bool :=
  bool_decide (is_Some (links (fs w) !! p)).

(** [Path.exists] follows a symlink to its target. *)
Definition path_exists (p : string) (w : World) : bool :=
  match links (fs w) !! p with
  | Some t => bool_decide (is_Some (files (fs w) !! t)) || bool_decide (t ∈ dirs (fs w))
  | None => bool_decide (is_Some (files (fs w) !! p)) || bool_decide (p ∈ dirs (fs w))
  end.

(** A path below [d], where [d] may be a symlink to a directory. *)
Definition under (d name : string) (w : World) : string :=
  match links (fs w) !! d with
  | Some t => t +:+ "/" +:+ name
  | None => d +:+ "/" +:+ name
  end.

Definition read_text (p : string) : M string :=
  λ w, match files (fs w) !! p with
       | Some c => Some (w, Ok c)
       | None => Some (w, Raise (OSError p))
       end.

(** [with p.open('w') as f: f.write(contents)], also [p.write_text]. *)
Definition write_text (p contents : string) : M unit :=
  do emit (EvOpenWrite p) then emit (EvWriteChunk p contents).

Definition mkdir (p : string) : M unit := emit (EvMkdir p).

Definition unlink (p : string) : M unit :=
  λ w, if bool_decide (p ∈ undeletable w) then Some (w, Raise (OSError p))
       else if bool_decide (is_Some (files (fs w) !! p)) || bool_decide (is_Some (links (fs w) !! p))
       then emit (EvUnlink p) w
       else Some (w, Raise (OSError p)).

Definition symlink_to (p target : string) : M unit :=
  λ w, if bool_decide (is_Some (files (fs w) !! p)) || bool_decide (is_Some (links (fs w) !! p))
       then Some (w, Raise (OSError p))
       else emit (EvSymlink p target) w.

Definition rename (src dst : string) : M unit :=
  λ w, if bool_decide (is_Some (files (fs w) !! src)) || bool_decide (is_Some (links (fs w) !! src))
       then emit (EvRename src dst) w
       else Some (w, Raise (OSError src)).

(** ** The script *)

Section Script.

Context (cfg : Config) (ext : Extern).

Definition STORE_DIR : string := "store".
Definition RELEASES_DIR : string := "releases".
Definition STATS_DIR : string := "stats".

(** Lines 62 and 67. *)
Definition nix_store_dest : string :=
  "file://" +:+ WORKING_DIR cfg +:+ "/" +:+ STORE_DIR.
Definition binary_cache_url : string :=
  MIRROR_BASE_URL cfg +:+ "/" +:+ STORE_DIR.

(** *** The retry policy, lines 69-73

    [Retry] is urllib3's class, restricted to the one counter that
    [Retry(total=5, ...)] sets.  Its [increment] returns a new [Retry] with
    [total] one lower, and raises [MaxRetryError] once that goes below zero;
    it never returns [None]. *)

Record Retry := { total : Z }.

Definition retries : Retry := {| total := 5 |}.

Definition increment (retry : Retry) (error : exn) : outcome (option Retry) :=
  let total' := total retry - 1 in
  if total' <? 0 then Raise (MaxRetryError error)
  else Ok (Some {| total := total' |}).

(** *** [http_get], lines 84-85

    Without [stream], the body is read inside [session.get], so a broken body
    raises there. *)
Definition http_get (url : string) (stream : bool) : M response :=
  let* n := count_request in
  do emit (EvHttpGet url) then
  match http ext n url with
  | ConnFailed e => raise e
  | Replied r =>
      match stream, stream_error r with
      | false, Some e => raise e
      | _, _ => ret r
      end
  end.

Definition raise_for_status (res : response) : M unit :=
  if bool_decide (400 ≤ status_code res < 600)%nat
  then raise (HTTPError (status_code res))
  else ret tt.

(** *** [file_sha256], lines 89-97 *)
Definition file_sha256 (dest : string) : M string :=
  let* contents := read_text dest in
  ret (sha256_hex ext contents).

(** *** [download], lines 111-147 *)

(** [dest.parent / f'.{dest.name}.tmp'] *)
Definition tmp_path (dest : string) : string :=
  match rsplit_slash dest with
  | Some (parent, name) => parent +:+ "/" +:+ "." +:+ name +:+ ".tmp"
  | None => "." +:+ dest +:+ ".tmp"
  end.

Definition path_parent (dest : string) : string :=
  match rsplit_slash dest with
  | Some (parent, _) => parent
  | None => "."
  end.

(** The exceptions that [except (ConnectionError, WrongSize)] handles. *)
Definition retriable (e : exn) : bool :=
  match e with
  | ConnectionError _ | WrongSize _ _ => true
  | _ => false
  end.

(** Lines 121-129: the body of the [try]. *)
Definition stream_to (download_dest : string) (res : response) : M unit :=
  do emit (EvOpenWrite download_dest) then
  do for_each (chunks res) (λ chunk,
       if bool_decide (chunk = "") then ret tt
       else emit (EvWriteChunk download_dest chunk)) then
  do match stream_error res with
     | Some e => raise e
     | None => ret tt
     end then
  let* w := get_world in
  let actual_size := String.length (default "" (files (fs w) !! download_dest)) in
  match content_length res with
  | Some expected_size =>
      if bool_decide (actual_size ≠ expected_size)
      then raise (WrongSize expected_size actual_size)
      else ret tt
  | None => ret tt
  end.

(** Lines 117-145: the [while True] loop, cut off after [bound] rounds. *)
Fixpoint download_loop (bound : nat) (url download_dest : string)
    (retry : Retry) : M unit :=
  match bound with
  | O => λ _, None
  | S bound' =>
      let* res := http_get url true in
      do raise_for_status res then
      let* caught :=
        try_except (do stream_to download_dest res then ret None)
                   retriable (λ e, ret (Some e)) in
      match caught with
      | None => ret tt
      | Some e =>
          let* next_retry := lift (increment retry e) in
          match next_retry with
          | None => do set_failure then raise e
          | Some next => download_loop bound' url download_dest next
          end
      end
  end.

Definition download (url dest : string) : M unit :=
  do mkdir (path_parent dest) then
  let download_dest := tmp_path dest in
  do download_loop (S (S (Z.to_nat (total retries)))) url download_dest retries then
  rename download_dest dest.

(** *** [get_channels], lines 152-169 *)
Definition get_channels : M (list (string * Z)) :=
  let channels_specified := str_split_comma (CHANNELS_LIST cfg) in
  let channels_substring := CHANNEL_MATCH_SUBSTRING cfg in
  let all_channels := List.filter (λ x, channel_name_ok x.1) (list_objects ext) in
  ret (List.filter
         (λ element,
            bool_decide (element.1 ∈ channels_specified)
            || (negb (bool_decide (channels_substring = ""))
                && str_contains channels_substring element.1))
         all_channels).

(** *** [clone_channels], lines 172-280 *)

(** Lines 237-264: one row of the release page; the result tells whether the
    row set [has_hash_fail]. *)
Definition clone_row (chan_location release_path : string)
    (row : list string) : M bool :=
  match row with
  | [file_name; _file_size; file_hash] =>
      if str_endswith ".ova" file_name || str_endswith ".iso" file_name
      then ret false
      else
        let* w := get_world in
        let* existing :=
          if path_exists (release_path +:+ "/" +:+ file_name) w
          then let* h := file_sha256 (release_path +:+ "/" +:+ file_name) in
               ret (bool_decide (h = file_hash))
          else ret false in
        if (existing : bool) then ret false
        else
          let dest := if bool_decide (file_name = "binary-cache-url")
                      then ".original-binary-cache-url" else file_name in
          do download (chan_location +:+ "/" +:+ file_name)
                      (release_path +:+ "/" +:+ dest) then
          let* h := file_sha256 (release_path +:+ "/" +:+ dest) in
          if bool_decide (h ≠ file_hash)
          then do set_failure then ret true
          else ret false
  | _ => ret false
  end.

(** Lines 234-264: the loop over the rows, threading [has_hash_fail]. *)
Fixpoint clone_rows (chan_location release_path : string)
    (rows : list (list string)) (has_hash_fail : bool) : M bool :=
  match rows with
  | [] => ret has_hash_fail
  | row :: rows' =>
      let* bad := clone_row chan_location release_path row in
      clone_rows chan_location release_path rows' (has_hash_fail || bad)
  end.

Definition update_link (channel : string) : string := "." +:+ channel +:+ ".update".

Definition release_target_of (channel chan_location : string) : string :=
  RELEASES_DIR +:+ "/" +:+ channel +:+ "@" +:+ str_after_last_slash chan_location.

(** Lines 180-277: the body of the loop over the channels; the result tells
    whether the channel was appended to [channels_to_update]. *)
Definition clone_channel (channel : string) (chan_updated : Z) : M bool :=
  let chan_path := channel in
  if chan_updated <? CLONE_SINCE then ret false
  else
    do emit (EvGetObject channel) then
    let* chan_location := lift (redirect_location ext channel) in
    let release_target := release_target_of channel chan_location in
    let release_path := release_target in
    let* w := get_world in
    if bool_decide (links (fs w) !! chan_path = Some release_target) then ret false
    else
      let chan_path_update := update_link channel in
      if bool_decide (links (fs w) !! chan_path_update = Some release_target)
      then ret true
      else
        let* release_res := http_get chan_location false in
        if bool_decide (status_code release_res = 404%nat) then ret false
        else
          do raise_for_status release_res then
          let text := response_text release_res in
          match tagline_match (pq_tagline ext text) with
          | None => ret false
          | Some released_time =>
              do mkdir release_path then
              do write_text (release_path +:+ "/" +:+ ".released-time")
                            released_time then
              let* has_hash_fail :=
                clone_rows chan_location release_path (pq_rows ext text) false in
              do write_text (release_path +:+ "/" +:+ "binary-cache-url")
                            binary_cache_url then
              if (has_hash_fail : bool) then ret false
              else
                let* w := get_world in
                do (if path_exists chan_path_update w
                    then unlink chan_path_update else ret tt) then
                do symlink_to chan_path_update release_target then
                ret true
          end.

Fixpoint clone_loop (chans : list (string * Z))
    (channels_to_update : list string) : M (list string) :=
  match chans with
  | [] => ret channels_to_update
  | (channel, chan_updated) :: rest =>
      let* add := clone_channel channel chan_updated in
      clone_loop rest
        (if (add : bool) then channels_to_update ++ [channel]
         else channels_to_update)
  end.

Definition clone_channels : M (list string) :=
  do mkdir "." then
  let* chans := get_channels in
  clone_loop chans [].

(** *** [update_channels], lines 287-411 *)

(** Lines 313-319: the edit of [nix-cache-info]. *)
Definition cache_info_rewrite (cache_info_data : string) : string :=
  str_replace "Priority: 40" ("Priority: " +:+ CACHE_PRIORITY cfg) cache_info_data.

(** [s.rstrip('/')] *)
Fixpoint str_rstrip_slash (s : string) : string :=
  match s with
  | "" => ""
  | String c s' =>
      match str_rstrip_slash s' with
      | "" => if bool_decide (c = "/"%char) then "" else String c ""
      | r => String c r
      end
  end.

(** Lines 323-338: the store paths of a release, without the two that are
    filtered out. *)
Definition read_store_paths (release : string) : M (list string) :=
  let* w := get_world in
  let* xz := read_text (under release "store-paths.xz" w) in
  let* lines := lift (lzma_lines ext xz) in
  let paths := map str_rstrip lines in
  ret (List.filter
         (λ path, negb (str_contains "texlive-2022-env-man" path)
                  && negb (str_contains "texlive-2022-env-info" path))
         paths).

(** [range(0, n, step)] for a positive [step]. *)
Definition range_step (n step : nat) : list nat :=
  map (λ k, k * step)%nat (seq 0 ((n + step - 1) / step)).

(** Lines 342-343: [paths[i : i + PATH_BATCH] for i in range(0, len(paths),
    PATH_BATCH)].  A zero step makes [range] raise; a negative one makes it
    empty. *)
Definition path_batches (paths : list string) : outcome (list (list string)) :=
  if bool_decide (PATH_BATCH cfg = 0) then Raise (ValueError "range() arg 3 must not be zero")
  else if bool_decide (PATH_BATCH cfg < 0) then Ok []
  else
    let step := Z.to_nat (PATH_BATCH cfg) in
    Ok (map (λ i, take step (drop i paths)) (range_step (length paths) step)).

(** Lines 358-367: one record of the oracle's answer. *)
Definition add_info (acc : list (list string) * gset string)
    (info : string * string) : list (list string) * gset string :=
  let '(todo, seen_paths) := acc in
  let '(path, url) := info in
  let ha := hash_part path in
  let one_todo :=
    List.filter (λ name, negb (bool_decide (name ∈ seen_paths)))
                [url; ha +:+ ".narinfo"] in
  let seen_paths := list_to_set one_todo ∪ seen_paths in
  match one_todo with
  | [] => (todo, seen_paths)
  | _ => (todo ++ [one_todo], seen_paths)
  end.

(** Lines 342-367: the loop over the batches.  [None] is the [break] that
    sets [channel_failure]; [Some todo] is the loop running to its [else]. *)
Fixpoint expand_batches (upstream_binary_cache : string)
    (batches : list (list string)) (todo : list (list string))
    (seen_paths : gset string) : M (option (list (list string))) :=
  match batches with
  | [] => ret (Some todo)
  | batch :: rest =>
      do emit (EvPathInfo upstream_binary_cache batch) then
      let '(returncode, infos) := path_info_json ext upstream_binary_cache batch in
      if bool_decide (returncode ≠ 0) then ret None
      else
        let '(todo', seen_paths') := foldl add_info (todo, seen_paths) infos in
        expand_batches upstream_binary_cache rest todo' seen_paths'
  end.

(** [repr] of a list of strings that need no escaping. *)
Definition repr_list (l : list string) : string :=
  "[" +:+ str_join ", " (map (λ s, "'" +:+ s +:+ "'") l) +:+ "]".

(** Lines 371-379. *)
Definition save_sync_stats (channel : string) (todo : list (list string)) : M unit :=
  do mkdir STATS_DIR then
  let cnt_file_name := channel +:+ "." +:+ stats_timestamp cfg +:+ ".sync.cnt" in
  let list_file_name := channel +:+ "." +:+ stats_timestamp cfg +:+ ".sync.list" in
  do write_text (STATS_DIR +:+ "/" +:+ cnt_file_name)
                ("Sync files count: " +:+ pretty (length todo)) then
  do emit (EvOpenWrite (STATS_DIR +:+ "/" +:+ list_file_name)) then
  for_each todo (λ line,
    emit (EvWriteChunk (STATS_DIR +:+ "/" +:+ list_file_name)
                       (repr_list line +:+ LF))).

(** Lines 383-395. *)
Definition try_mirror (upstream_binary_cache : string) (paths : list string) : M bool :=
  try_except
    (do for_each paths (λ path,
          let url := upstream_binary_cache +:+ "/" +:+ path in
          let dest := STORE_DIR +:+ "/" +:+ path in
          let* w := get_world in
          if path_exists dest w then ret tt else download url dest) then
     ret true)
    retriable (λ _, ret false).

(** Lines 397-401: the pool runs every job; the model runs them one after the
    other, in the order of [todo], and keeps each job's result or exception as
    [executor.map] does. *)
Fixpoint run_jobs (upstream_binary_cache : string) (todo : list (list string))
    : M (list (outcome bool)) :=
  match todo with
  | [] => ret []
  | job :: rest =>
      λ w, match try_mirror upstream_binary_cache job w with
           | None => None
           | Some (w', r) =>
               (let* rs := run_jobs upstream_binary_cache rest in ret (r :: rs)) w'
           end
  end.

(** [all(results)], line 402: stops at the first [False]; a job's exception
    is raised when the iteration reaches it. *)
Fixpoint all_results (results : list (outcome bool)) : outcome bool :=
  match results with
  | [] => Ok true
  | Ok true :: rest => all_results rest
  | Ok false :: _ => Ok false
  | Raise e :: _ => Raise e
  end.

(** Lines 304-321. *)
Definition fetch_cache_info (upstream_binary_cache : string) : M unit :=
  let info_file := "nix-cache-info" in
  let info_file_path := STORE_DIR +:+ "/" +:+ info_file in
  do download (upstream_binary_cache +:+ "/" +:+ info_file) info_file_path then
  if SET_CACHE_PRIORITY cfg then
    let* cache_info_data := read_text info_file_path in
    write_text info_file_path (cache_info_rewrite cache_info_data)
  else ret tt.

(** Lines 293-409: the body of the loop over the channels. *)
Definition update_channel (channel : string) (has_cache_info : bool) : M unit :=
  let chan_path := channel in
  let chan_path_update := update_link channel in
  let* w := get_world in
  let* upstream_binary_cache :=
    read_text (under chan_path_update ".original-binary-cache-url" w) in
  let upstream_binary_cache := str_rstrip_slash upstream_binary_cache in
  do (if has_cache_info then ret tt else fetch_cache_info upstream_binary_cache) then
  let* paths := read_store_paths chan_path_update in
  let* batches := lift (path_batches paths) in
  let* expanded := expand_batches upstream_binary_cache batches [] ∅ in
  let* channel_failure :=
    match expanded with
    | None => ret true
    | Some todo =>
        do (if SAVE_STATS cfg then save_sync_stats channel todo else ret tt) then
        do (if bool_decide (THREADS cfg ≤ 0)
            then raise (ValueError "max_workers must be greater than 0")
            else ret tt) then
        let* results := run_jobs upstream_binary_cache todo in
        let* ok := lift (all_results results) in
        ret (negb ok)
    end in
  if (channel_failure : bool) then ret tt
  else rename chan_path_update chan_path.

Fixpoint update_loop (channels : list string) (has_cache_info : bool) : M unit :=
  match channels with
  | [] => ret tt
  | channel :: rest =>
      do update_channel channel has_cache_info then
      update_loop rest true
  end.

Definition update_channels (channels : list string) : M unit :=
  update_loop channels false.

(** *** [parse_narinfo], lines 414-419 *)

Fixpoint parse_narinfo_lines (lines : list string) (res : gmap string string)
    : outcome (gmap string string) :=
  match lines with
  | [] => Ok res
  | line :: rest =>
      match str_split_once ": " line with
      | Some (key, value) => parse_narinfo_lines rest (<[key := value]> res)
      | None => Raise (ValueError "not enough values to unpack")
      end
  end.

Definition parse_narinfo (narinfo : string) : outcome (gmap string string) :=
  parse_narinfo_lines (str_splitlines narinfo) ∅.

(** *** [garbage_collect], lines 422-517 *)

(** The entry of directory [d] that the path [k] lies in or is. *)
Definition child_of (d k : string) : option string :=
  if str_startswith (d +:+ "/") k
  then Some (str_before "/" (str_drop (String.length d + 1) k))
  else None.

(** [d.iterdir()], as a list taken when the loop starts. *)
Definition iterdir (d : string) : M (list string) :=
  λ w,
    let known := elements (dom (files (fs w)) ∪ dom (links (fs w)) ∪ dirs (fs w)) in
    let entries := remove_dups (omap (child_of d) known) in
    if bool_decide (entries = []) && negb (bool_decide (d ∈ dirs (fs w)))
    then Some (w, Raise (OSError d))
    else Some (w, Ok (map (λ name, d +:+ "/" +:+ name) entries)).

Record gc_state := {
  last_updated : gmap string Z;
  latest : gmap string string;
  alive : gset string
}.

(** Lines 432-445: the body of the loop over the releases. *)
Definition gc_visit (time_threshold : Z) (release : string) (st : gc_state)
    : M gc_state :=
  let* w := get_world in
  if negb (path_exists (release +:+ "/" +:+ "binary-cache-url") w) then ret st
  else
    let channel := str_before "@" (str_after_last_slash release) in
    let* date_str := read_text (release +:+ "/" +:+ ".released-time") in
    let* released_date := lift (strptime ext date_str) in
    let alive' :=
      if bool_decide (time_threshold ≤ released_date)
      then {[release]} ∪ alive st else alive st in
    if match last_updated st !! channel with
       | None => true
       | Some seen => bool_decide (seen < released_date)
       end
    then ret {| last_updated := <[channel := released_date]> (last_updated st);
                latest := <[channel := release]> (latest st);
                alive := alive' |}
    else ret {| last_updated := last_updated st; latest := latest st;
                alive := alive' |}.

Fixpoint gc_scan (time_threshold : Z) (releases : list string) (st : gc_state)
    : M gc_state :=
  match releases with
  | [] => ret st
  | release :: rest =>
      let* st' := gc_visit time_threshold release st in
      gc_scan time_threshold rest st'
  end.

(** Lines 427-447: the releases to keep. *)
Definition gc_alive (time_threshold : Z) (releases : list string) : M (gset string) :=
  let* st := gc_scan time_threshold releases
               {| last_updated := ∅; latest := ∅; alive := ∅ |} in
  ret (alive st ∪ map_img (latest st)).

(** Lines 465-478. *)
Fixpoint gc_closure_batches (batches : list (list string)) (closure : gset string)
    : M (gset string) :=
  match batches with
  | [] => ret closure
  | batch :: rest =>
      do emit (EvPathInfo nix_store_dest batch) then
      let* w := get_world in
      let stdout_lines := path_info_local ext (files (fs w)) batch in
      gc_closure_batches rest (list_to_set (map hash_part stdout_lines) ∪ closure)
  end.

(** Lines 453-478. *)
Fixpoint gc_closure (releases : list string) (closure : gset string)
    : M (gset string) :=
  match releases with
  | [] => ret closure
  | release :: rest =>
      let* paths := read_store_paths release in
      let* batches := lift (path_batches paths) in
      let* closure' := gc_closure_batches batches closure in
      gc_closure rest closure'
  end.

(** Lines 482-489. *)
Definition save_closure_stats (closure : gset string) : M unit :=
  let closure_cnt_file_name := stats_timestamp cfg +:+ ".closure.cnt" in
  let closure_list_file_name := stats_timestamp cfg +:+ ".closure.list" in
  do write_text (STATS_DIR +:+ "/" +:+ closure_cnt_file_name)
                ("Sync files count: " +:+ pretty (size closure)) then
  do emit (EvOpenWrite (STATS_DIR +:+ "/" +:+ closure_list_file_name)) then
  for_each (elements closure) (λ line,
    emit (EvWriteChunk (STATS_DIR +:+ "/" +:+ closure_list_file_name) (line +:+ LF))).

(** [try: c  except: pass] *)
Definition try_pass (c : M unit) : M unit :=
  try_except c (λ _, true) (λ _, ret tt).

Definition dict_get (d : gmap string string) (key : string) : M string :=
  match d !! key with
  | Some v => ret v
  | None => raise (KeyError key)
  end.

(** Lines 494-512: the body of the loop over the store; the result tells
    whether [deleted] was incremented. *)
Definition gc_sweep_entry (closure : gset string) (path : string) : M bool :=
  let name := str_after_last_slash path in
  if negb (str_endswith ".narinfo" name) then ret false
  else
    let hash := str_before ".narinfo" name in
    if bool_decide (hash ∈ closure) then ret false
    else
      do (if DELETE_OLD cfg then
            let* text := read_text path in
            let* narinfo := lift (parse_narinfo text) in
            do try_pass (unlink path) then
            try_pass (let* url := dict_get narinfo "URL" in
                      unlink (STORE_DIR +:+ "/" +:+ url))
          else ret tt) then
      ret true.

(** Lines 491-512. *)
Fixpoint gc_sweep (closure : gset string) (entries : list string) (deleted : nat)
    : M nat :=
  match entries with
  | [] => ret deleted
  | path :: rest =>
      let* counted := gc_sweep_entry closure path in
      gc_sweep closure rest (if (counted : bool) then S deleted else deleted)
  end.

Definition garbage_collect : M nat :=
  let time_threshold := now ext - RETAIN_DAYS cfg in
  let* releases := iterdir RELEASES_DIR in
  let* alive := gc_alive time_threshold releases in
  let* closure := gc_closure (elements alive) ∅ in
  do (if SAVE_STATS cfg then save_closure_stats closure else ret tt) then
  let* entries := iterdir STORE_DIR in
  gc_sweep closure entries 0.

(** *** The main program, lines 520-534: the final state and the exit code.
    An exception that leaves [garbage_collect] is not handled and ends the
    process with status 1. *)
Definition main : World → option (World * Z) :=
  λ w,
    match try_except (let* channels := clone_channels in update_channels channels)
                     (λ _, true) (λ _, set_failure) w with
    | None => None
    | Some (w1, _) =>
        match (if COLLECT_GARBAGE cfg
               then (do garbage_collect then ret tt) else ret tt) w1 with
        | None => None
        | Some (w2, Raise _) => Some (w2, 1)
        | Some (w2, Ok _) => Some (w2, if failure w2 then 1 else 0)
        end
    end.

End Script.


(** ** Example inputs *)

(** The defaults of lines 31-44, with a short working directory. *)
Definition demo_cfg : Config :=
  {| MIRROR_BASE_URL := "https://mirrors.tuna.tsinghua.edu.cn/nix-channels";
     WORKING_DIR := "/srv/nix";
     PATH_BATCH := 8192;
     THREADS := 10;
     DELETE_OLD := true;
     RETAIN_DAYS := 30 * 86400 * 1000000;
     SAVE_STATS := false;
     COLLECT_GARBAGE := false;
     SET_CACHE_PRIORITY := true;
     CACHE_PRIORITY := "10";
     CHANNEL_MATCH_SUBSTRING := "nixos-23.11-small";
     CHANNELS_LIST := "nixos-23.11-small,nixos-24.05-small";
     stats_timestamp := "2024-06-01-00-00-00" |}.


(** A run starts with no failure, no request and no event. *)
Definition start (s : FS) : World :=
  {| fs := s; undeletable := ∅; failure := false; requests := 0; trace := [] |}.

Definition empty_fs : FS := {| files := ∅; links := ∅; dirs := ∅ |}.

(** [strptime] for the fixed-width form [YYYY-MM-DD HH:MM:SS]. *)
Fixpoint decimal_go (acc : Z) (s : string) : option Z :=
  match s with
  | "" => Some acc
  | String c s' =>
      match Ascii.is_nat c with
      | Some d => decimal_go (10 * acc + Z.of_nat d) s'
      | None => None
      end
  end.

Definition decimal_field (s : string) (from len : nat) : option Z :=
  decimal_go 0 (String.substring from len s).

Definition demo_strptime (s : string) : outcome Z :=
  match decimal_field s 0 4, decimal_field s 5 2, decimal_field s 8 2,
        decimal_field s 11 2, decimal_field s 14 2, decimal_field s 17 2 with
  | Some y, Some m, Some d, Some hh, Some mm, Some ss =>
      if bool_decide (String.length s = 19%nat)
      then Ok (datetime_utc y m d + ((hh * 60 + mm) * 60 + ss) * 1000000)
      else Raise (ValueError s)
  | _, _, _, _, _, _ => Raise (ValueError s)
  end.

(** A response with a complete body in one chunk and a matching
    Content-Length. *)
Definition serve_ok (body : string) : reply :=
  Replied {| status_code := 200; content_length := Some (String.length body);
             chunks := [body]; stream_error := None |}.

(** A response whose body breaks after [part]. *)
Definition serve_broken (part : string) : reply :=
  Replied {| status_code := 200; content_length := None;
             chunks := [part]; stream_error := Some (ConnectionError "reset") |}.

(** The collaborators of the examples: one channel whose release page has
    the tagline on its first line and one row per further line; the digest
    of a file is its contents; [store-paths.xz] is not compressed; the oracle
    answers with the paths it was asked about. *)
Definition demo_ext (serve : nat → string → reply) (returncode : Z) : Extern :=
  {| sha256_hex := λ contents, contents;
     list_objects := [("nixos-23.11-small", datetime_utc 2024 5 1)];
     redirect_location := λ _, Ok "https://releases.nixos.org/nixos/r1";
     http := serve;
     pq_tagline := first_line;
     pq_rows := λ text, map String.words (tail (str_splitlines text));
     path_info_json := λ _ batch,
       (returncode, map (λ p, (p, "nar/" +:+ hash_part p +:+ ".nar.xz")) batch);
     path_info_local := λ _ batch, batch;
     lzma_lines := λ xz, Ok (str_splitlines xz);
     strptime := demo_strptime;
     now := datetime_utc 2024 6 1 |}.

(** The channel of the examples and where upstream redirects it. *)
Definition demo_channel : string := "nixos-23.11-small".
Definition demo_target : string := "releases/nixos-23.11-small@r1".

(** A working directory whose live symlink is up to date. *)
Definition synced_fs : FS :=
  {| files := ∅; links := {[ demo_channel := demo_target ]}; dirs := ∅ |}.

(** A [nix-cache-info] that declares the priority 30. *)
Definition cache_info_30 : string :=
  "StoreDir: /nix/store" +:+ LF +:+ "Priority: 30" +:+ LF.

(** [steps w w' es]: from [w] to [w'] the events [es] were recorded, and the
    file system of [w'] is that of [w] after these events. *)
Definition steps (w w' : World) (es : list event) : Prop :=
  trace w' = trace w ++ es ∧ fs w' = replay es (fs w) ∧
  undeletable w' = undeletable w.

(** The events that only concern the temporary file of a download. *)
Definition tmp_only (tmp : string) (e : event) : Prop :=
  match e with
  | EvHttpGet _ => True
  | EvOpenWrite p | EvWriteChunk p _ => p = tmp
  | _ => False
  end.

(** An event that leaves the file at [p] alone. *)
Definition leaves (p : string) (e : event) : Prop :=
  match e with
  | EvGetObject _ | EvHttpGet _ | EvPathInfo _ _ | EvMkdir _ => True
  | EvOpenWrite q | EvWriteChunk q _ | EvUnlink q | EvSymlink q _ => q ≠ p
  | EvRename src dst => src ≠ p ∧ dst ≠ p
  end.

(** What a download may do to the file system: create a directory, request
    the URL, write its own temporary file, and rename that file onto the
    destination. *)
Definition fetch_event (dest : string) (e : event) : Prop :=
  match e with
  | EvMkdir _ | EvHttpGet _ => True
  | EvOpenWrite p | EvWriteChunk p _ => p = tmp_path dest ∧ p ≠ dest
  | EvRename src dst => src = tmp_path dest ∧ dst = dest
  | _ => False
  end.

(** Every reply to a request for [url] arrives with a good status, and its
    body breaks with a connection error or has the wrong size. *)
Definition always_fails (ext : Extern) (url : string) : Prop :=
  ∀ n, ∃ res,
    http ext n url = Replied res ∧ ¬ (400 ≤ status_code res < 600)%nat ∧
    ((∃ e, stream_error res = Some e ∧ retriable e = true) ∨
     (stream_error res = None ∧
      ∃ len, content_length res = Some len ∧
             len ≠ String.length (response_text res))).

(** A working directory where an earlier run staged the release of the
    channel: the staged symlink points at it, and its files are there. *)
Definition staged_fs : FS :=
  {| files :=
       {[ demo_target +:+ "/.original-binary-cache-url" := "https://cache.nixos.org/";
          demo_target +:+ "/store-paths.xz" :=
            "/nix/store/abc123-hello-1.0" +:+ LF +:+ "/nix/store/def456-world-2.0" +:+ LF ]};
     links := {[ update_link demo_channel := demo_target ]};
     dirs := {[ demo_target ]} |}.

(** The defaults, with batches of one path. *)
Definition small_batch_cfg : Config :=
  {| MIRROR_BASE_URL := MIRROR_BASE_URL demo_cfg;
     WORKING_DIR := WORKING_DIR demo_cfg;
     PATH_BATCH := 1;
     THREADS := THREADS demo_cfg;
     DELETE_OLD := DELETE_OLD demo_cfg;
     RETAIN_DAYS := RETAIN_DAYS demo_cfg;
     SAVE_STATS := SAVE_STATS demo_cfg;
     COLLECT_GARBAGE := COLLECT_GARBAGE demo_cfg;
     SET_CACHE_PRIORITY := SET_CACHE_PRIORITY demo_cfg;
     CACHE_PRIORITY := CACHE_PRIORITY demo_cfg;
     CHANNEL_MATCH_SUBSTRING := CHANNEL_MATCH_SUBSTRING demo_cfg;
     CHANNELS_LIST := CHANNELS_LIST demo_cfg;
     stats_timestamp := stats_timestamp demo_cfg |}.

(** A server that delivers [nix-cache-info] and refuses every later
    connection. *)
Definition serve_first_only (n : nat) (url : string) : reply :=
  if bool_decide (n = 0%nat) then serve_ok cache_info_30
  else ConnFailed (ConnectionError "connection refused").





(** A store entry that the sweep counts: a narinfo whose hash is not in the
    closure (lines 494-499). *)
Definition unreachable (closure : gset string) (path : string) : bool :=
  str_endswith ".narinfo" (str_after_last_slash path)
  && negb (bool_decide (str_before ".narinfo" (str_after_last_slash path) ∈ closure)).





(** The release directory has the marker [binary-cache-url] (line 433). *)
Definition marked (w : World) (release : string) : bool :=
  path_exists (release +:+ "/" +:+ "binary-cache-url") w.

(** The date in [.released-time], when it is there and parses (lines
    436-437). *)
Definition released (ext : Extern) (w : World) (release : string) : option Z :=
  match files (fs w) !! (release +:+ "/" +:+ ".released-time") with
  | Some date_str =>
      match strptime ext date_str with
      | Ok d => Some d
      | Raise _ => None
      end
  | None => None
  end.

(** Line 435. *)
Definition channel_of (release : string) : string :=
  str_before "@" (str_after_last_slash release).

(** What the loop over the releases has established after the releases
    [seen]. *)
Definition gc_inv (ext : Extern) (time_threshold : Z) (w : World)
    (seen : list string) (st : gc_state) : Prop :=
  (∀ r, r ∈ alive st ↔
        r ∈ seen ∧ marked w r = true ∧
        ∃ d, released ext w r = Some d ∧ time_threshold ≤ d) ∧
  (∀ c, match last_updated st !! c, latest st !! c with
        | Some d, Some r =>
            r ∈ seen ∧ marked w r = true ∧ channel_of r = c ∧
            released ext w r = Some d
        | None, None => True
        | _, _ => False
        end) ∧
  (∀ r' d', r' ∈ seen → marked w r' = true → released ext w r' = Some d' →
            ∃ d, last_updated st !! channel_of r' = Some d ∧ d' ≤ d).

(** Two releases of one channel, both with the marker: one released exactly
    30 days before 2024-06-01, one released later. *)
Definition two_releases_fs : FS :=
  {| files :=
       {[ "releases/nixos-23.11-small@r1/binary-cache-url" := "https://mirror/store";
          "releases/nixos-23.11-small@r1/.released-time" := "2024-05-02 00:00:00";
          "releases/nixos-23.11-small@r2/binary-cache-url" := "https://mirror/store";
          "releases/nixos-23.11-small@r2/.released-time" := "2024-05-20 00:00:00" ]};
     links := ∅;
     dirs := {[ "releases" ]} |}.

(** The character [c] occurs in [s]. *)
Definition has_char (c : ascii) (s : string) : bool :=
  str_contains (String c "") s.




(** A server whose release page has no tagline. *)
Definition serve_no_tagline (n : nat) (url : string) : reply :=
  serve_ok ("Index of the release" +:+ LF).

(** A release directory that already holds [a.txt] with the listed digest. *)
Definition resumed_fs : FS :=
  {| files := {[ demo_target +:+ "/a.txt" := "abc" ]};
     links := ∅; dirs := {[ demo_target ]} |}.

(** What the loop over the oracle's records keeps true of [todo] and
    [seen_paths]: no job is empty, the names seen are the names of the jobs,
    and no name of a job occurs in an earlier job. *)
Definition jobs_inv (todo : list (list string)) (seen_paths : gset string) : Prop :=
  Forall (λ job, job ≠ []) todo ∧
  (∀ name, name ∈ seen_paths ↔ ∃ job, job ∈ todo ∧ name ∈ job) ∧
  ∀ pre job post, todo = pre ++ job :: post →
    ∀ name earlier, name ∈ job → earlier ∈ pre → name ∉ earlier.


(** [offline c]: [c] always ends (normally or by an exception), issues no
    HTTP request and leaves the [failure] flag as it is. *)
Definition offline {A} (c : M A) : Prop :=
  ∀ w, ∃ w' r, c w = Some (w', r) ∧
               failure w' = failure w ∧ requests w' = requests w.


(** [keeps_flag c]: [c] always ends, normally or by an exception, and leaves
    the [failure] flag as it is. *)
Definition keeps_flag {A} (c : M A) : Prop :=
  ∀ w, ∃ w' r, c w = Some (w', r) ∧ failure w' = failure w.

(** * Properties *)

(** ** Strings *)

Lemma str_app_nil_r (s : string) : s +:+ "" = s.
Proof. induction s as [|c s IH]; [done|]. cbv [String.app] in *. simpl. by rewrite IH. Qed.

Lemma str_app_cons (c : ascii) (s t : string) :
  String c s +:+ t = String c (s +:+ t).
Proof. reflexivity. Qed.

Lemma str_app_assoc (s t u : string) : (s +:+ t) +:+ u = s +:+ t +:+ u.
Proof. induction s as [|c s IH]; [done|]. by rewrite !str_app_cons, IH. Qed.

Lemma str_length_app (s t : string) :
  String.length (s +:+ t) = (String.length s + String.length t)%nat.
Proof.
  induction s as [|c s IH]; [done|]. rewrite str_app_cons. simpl. by rewrite IH.
Qed.

Lemma str_startswith_spec (p s : string) :
  str_startswith p s = true ↔ ∃ t, s = p +:+ t.
Proof.
  revert s. induction p as [|a p IH]; intros s; simpl.
  - split; [intros _; by exists s | done].
  - destruct s as [|b s].
    + split; [done | intros [t Ht]; by rewrite str_app_cons in Ht].
    + rewrite andb_true_iff, bool_decide_eq_true, IH. split.
      * intros [-> [t ->]]. by exists t.
      * intros [t Ht]. rewrite str_app_cons in Ht. simplify_eq. eauto.
Qed.

Lemma str_drop_app (p t : string) : str_drop (String.length p) (p +:+ t) = t.
Proof. induction p as [|a p IH]; [by destruct t|]. by rewrite str_app_cons. Qed.

Lemma str_contains_spec (sub s : string) :
  str_contains sub s = true ↔ occurs sub s.
Proof.
  induction s as [|c s IH]; simpl; rewrite orb_true_iff, str_startswith_spec.
  - split.
    + intros [[t Ht]|?]; [|done]. by exists "", t.
    + intros ([|??] & b & Hab); [|by rewrite str_app_cons in Hab].
      left. by exists b.
  - rewrite IH. split.
    + intros [[t Ht]|(a & b & ->)].
      * by exists "", t.
      * exists (String c a), b. by rewrite str_app_cons.
    + intros ([|c' a] & b & Hab).
      * left. by exists b.
      * right. rewrite str_app_cons in Hab. simplify_eq. by exists a, b.
Qed.





(** ** The monad *)

Lemma bind_Some {A B} (c : M A) (k : A → M B) (w w' : World) (r : outcome B) :
  bind c k w = Some (w', r) ↔
  ∃ w1 o, c w = Some (w1, o) ∧
    match o with
    | Ok a => k a w1 = Some (w', r)
    | Raise e => w' = w1 ∧ r = Raise e
    end.
Proof.
  unfold bind. split.
  - destruct (c w) as [[w1 [a|e]]|] eqn:Hc; [| |done].
    + intros Hk. by exists w1, (Ok a).
    + intros [= <- <-]. by exists w1, (Raise e).
  - intros (w1 & [a|e] & -> & Hk); [done|]. by destruct Hk as [-> ->].
Qed.

(** ** The channel cut-off and the skip of an up-to-date channel *)

(** C9: a channel last modified before 2020-03-06 00:00 UTC is skipped by
    [clone_channels]: its loop body does nothing at all (no request, no event,
    no change of the files or the symlinks) and does not append the channel
    to the channels to update; the loop goes on with the next channel in the
    same state. *)
Theorem clone_since_cutoff (cfg : Config) (ext : Extern) (channel : string)
    (chan_updated : Z) (rest : list (string * Z)) (acc : list string) (w : World) :
  chan_updated < datetime_utc 2020 3 6 →
  CLONE_SINCE = 1583452800 * 1000000 ∧
  clone_channel cfg ext channel chan_updated w = Some (w, Ok false) ∧
  clone_loop cfg ext ((channel, chan_updated) :: rest) acc w
    = clone_loop cfg ext rest acc w.
Proof.
  intros Hold. split; [reflexivity|].
  assert (clone_channel cfg ext channel chan_updated w = Some (w, Ok false)) as Hc.
  { unfold clone_channel. fold CLONE_SINCE in Hold.
    by rewrite (proj2 (Z.ltb_lt _ _) Hold). }
  split; [done|]. simpl. unfold bind at 1. by rewrite Hc.
Qed.

Lemma clone_since_cutoff_witness :
  clone_channel demo_cfg (demo_ext (λ _ _, serve_ok "") 0) "nixos-19.09"
    (datetime_utc 2019 10 9) (start empty_fs) = Some (start empty_fs, Ok false).
Proof.
  apply (clone_since_cutoff demo_cfg (demo_ext (λ _ _, serve_ok "") 0)
           "nixos-19.09" (datetime_utc 2019 10 9) [] [] (start empty_fs)).
  reflexivity.
Defined.

(** C6: when the live symlink of a channel already points at the release
    that upstream resolves to, the loop body of [clone_channels] only resolves
    the channel: it issues no HTTP request (no release page, no download),
    leaves the files, the live and the staged symlink as they are, and does
    not append the channel to the channels to update, so [update_channels]
    is not run for it. *)
Theorem up_to_date_channel_is_noop (cfg : Config) (ext : Extern)
    (channel chan_location : string) (chan_updated : Z)
    (rest : list (string * Z)) (acc : list string) (w : World) :
  redirect_location ext channel = Ok chan_location →
  links (fs w) !! channel = Some (release_target_of channel chan_location) →
  ∃ w',
    clone_channel cfg ext channel chan_updated w = Some (w', Ok false) ∧
    fs w' = fs w ∧ requests w' = requests w ∧ failure w' = failure w ∧
    (trace w' = trace w ∨ trace w' = trace w ++ [EvGetObject channel]) ∧
    clone_loop cfg ext ((channel, chan_updated) :: rest) acc w
      = clone_loop cfg ext rest acc w'.
Proof.
  intros Hloc Hlive.
  assert (∃ w', clone_channel cfg ext channel chan_updated w = Some (w', Ok false) ∧
                fs w' = fs w ∧ requests w' = requests w ∧ failure w' = failure w ∧
                (trace w' = trace w ∨ trace w' = trace w ++ [EvGetObject channel]))
    as (w' & Hc & Hw).
  { unfold clone_channel. destruct (chan_updated <? CLONE_SINCE).
    - exists w. repeat split; auto.
    - eexists. split.
      + unfold bind, emit, lift, get_world. rewrite Hloc. cbn [fs apply_event].
        rewrite Hlive. rewrite bool_decide_eq_true_2 by done. reflexivity.
      + cbn. auto. }
  exists w'. split; [done|]. destruct Hw as (? & ? & ? & ?).
  repeat split; try done. simpl. unfold bind at 1. by rewrite Hc.
Qed.

Lemma up_to_date_channel_is_noop_witness :
  ∃ w',
    clone_channel demo_cfg (demo_ext (λ _ _, serve_ok "") 0) demo_channel
      (datetime_utc 2024 5 1) (start synced_fs) = Some (w', Ok false) ∧
    fs w' = synced_fs ∧ requests w' = 0%nat.
Proof.
  destruct (up_to_date_channel_is_noop demo_cfg (demo_ext (λ _ _, serve_ok "") 0)
              demo_channel "https://releases.nixos.org/nixos/r1"
              (datetime_utc 2024 5 1) [] [] (start synced_fs))
    as (w' & Hc & Hfs & Hreq & _); [reflexivity | by vm_compute |].
  exists w'. auto.
Defined.

(** ** The edit of [nix-cache-info] *)






(** ** Effects as events *)

Lemma replay_app (es1 es2 : list event) (s : FS) :
  replay (es1 ++ es2) s = replay es2 (replay es1 s).
Proof. apply foldl_app. Qed.

Lemma steps_nil (w : World) : steps w w [].
Proof. unfold steps. by rewrite app_nil_r. Qed.

Lemma steps_app (w1 w2 w3 : World) (es1 es2 : list event) :
  steps w1 w2 es1 → steps w2 w3 es2 → steps w1 w3 (es1 ++ es2).
Proof.
  intros (Ht1 & Hf1 & Hu1) (Ht2 & Hf2 & Hu2). unfold steps.
  rewrite Ht2, Ht1, Hf2, Hf1, Hu2, Hu1, replay_app, app_assoc. done.
Qed.

Lemma emit_inv (e : event) (w w' : World) (r : outcome unit) :
  emit e w = Some (w', r) →
  r = Ok tt ∧ steps w w' [e] ∧ failure w' = failure w ∧ requests w' = requests w.
Proof. intros [= <- <-]. by repeat split. Qed.

Lemma leaves_apply_event (p : string) (e : event) (s : FS) :
  leaves p e →
  files (apply_event e s) !! p = files s !! p ∧
  links (apply_event e s) !! p = links s !! p.
Proof.
  destruct e; simpl; try done.
  - intros ?. by rewrite lookup_insert_ne.
  - intros ?. by rewrite lookup_insert_ne.
  - intros [? ?]. destruct (files s !! src), (links s !! src); simpl;
      rewrite ?lookup_insert_ne, ?lookup_delete_ne by done; done.
  - intros ?. by rewrite !lookup_delete_ne.
  - intros ?. by rewrite lookup_insert_ne.
Qed.

Lemma leaves_replay (p : string) (es : list event) (s : FS) :
  Forall (leaves p) es →
  files (replay es s) !! p = files s !! p ∧
  links (replay es s) !! p = links s !! p.
Proof.
  revert s. induction es as [|e es IH]; intros s Hall; [done|].
  apply Forall_cons in Hall as [He Hes]. simpl.
  destruct (IH (apply_event e s) Hes) as [-> ->]. by apply leaves_apply_event.
Qed.

Lemma tmp_only_leaves (tmp p : string) (e : event) :
  tmp ≠ p → tmp_only tmp e → leaves p e.
Proof. intros Hne. destruct e; simpl; try done; by intros ->. Qed.

(** ** The fetcher *)

Lemma rsplit_slash_Some (s d n : string) :
  rsplit_slash s = Some (d, n) → s = d +:+ "/" +:+ n.
Proof.
  revert d n. induction s as [|c s IH]; intros d n; simpl; [done|].
  destruct (rsplit_slash s) as [[d' n']|].
  - intros [= <- <-]. by rewrite (IH d' n').
  - case_bool_decide; [|done]. intros [= <- <-]. by subst.
Qed.

Lemma tmp_path_length (dest : string) :
  String.length (tmp_path dest) = (String.length dest + 5)%nat.
Proof.
  unfold tmp_path. destruct (rsplit_slash dest) as [[d n]|] eqn:Hs.
  - apply rsplit_slash_Some in Hs as ->. rewrite !str_length_app. simpl. lia.
  - rewrite !str_length_app. simpl. lia.
Qed.

(** The temporary file is never the destination. *)
Lemma tmp_path_ne (dest : string) : tmp_path dest ≠ dest.
Proof.
  intros Heq. apply (f_equal String.length) in Heq.
  rewrite tmp_path_length in Heq. lia.
Qed.

(** Prove the conjuncts of a goal in turn, leaving the last one. *)
Ltac conjs :=
  repeat match goal with
         | |- _ ∧ _ => split; [first [done | congruence]|]
         end.

Lemma bind_ok {A B} (c : M A) (k : A → M B) (w w1 : World) (a : A) :
  c w = Some (w1, Ok a) → bind c k w = k a w1.
Proof. intros Hc. unfold bind. by rewrite Hc. Qed.

Lemma bind_raise {A B} (c : M A) (k : A → M B) (w w1 : World) (e : exn) :
  c w = Some (w1, Raise e) → bind c k w = Some (w1, Raise e).
Proof. intros Hc. unfold bind. by rewrite Hc. Qed.

Lemma emit_spec (e : event) (w : World) :
  ∃ w', emit e w = Some (w', Ok tt) ∧ steps w w' [e] ∧
        failure w' = failure w ∧ requests w' = requests w.
Proof. eexists. split; [reflexivity|]. by repeat split. Qed.

(** One request: the reply is the one the server gives to request number
    [requests w]. *)
Lemma http_get_spec (ext : Extern) (url : string) (stream : bool) (w : World) :
  ∃ w' r,
    http_get ext url stream w = Some (w', r) ∧ steps w w' [EvHttpGet url] ∧
    requests w' = S (requests w) ∧ failure w' = failure w ∧
    match r with
    | Ok res => http ext (requests w) url = Replied res
    | Raise e =>
        http ext (requests w) url = ConnFailed e ∨
        ∃ res, http ext (requests w) url = Replied res ∧
               stream = false ∧ stream_error res = Some e
    end.
Proof.
  unfold http_get, bind, count_request, emit. cbn.
  destruct (http ext (requests w) url) as [e|res] eqn:Hrep.
  - eexists _, (Raise e). split; [reflexivity|]. repeat split; auto.
  - destruct stream, (stream_error res) as [e|] eqn:Herr;
      (eexists _, _; split; [reflexivity|]); repeat split; eauto.
Qed.

(** Writing the chunks appends them to the temporary file. *)
Lemma write_chunks_spec (tmp : string) (cs : list string) :
  ∀ (w : World) (acc : string),
    files (fs w) !! tmp = Some acc →
    ∃ w' es,
      for_each cs (λ chunk, if bool_decide (chunk = "") then ret tt
                            else emit (EvWriteChunk tmp chunk)) w
        = Some (w', Ok tt) ∧
      steps w w' es ∧ Forall (tmp_only tmp) es ∧
      files (fs w') !! tmp = Some (acc +:+ foldr String.app "" cs) ∧
      failure w' = failure w ∧ requests w' = requests w.
Proof.
  induction cs as [|chunk cs IH]; intros w acc Hacc.
  - exists w, []. rewrite str_app_nil_r. repeat split; auto using steps_nil.
    unfold steps. by rewrite app_nil_r.
  - cbn [for_each foldr]. case_bool_decide as Hempty.
    + subst chunk. destruct (IH w acc Hacc) as (w' & es & Hrun & ?).
      exists w', es. split; [|done]. by rewrite (bind_ok _ _ w w tt).
    + destruct (emit_spec (EvWriteChunk tmp chunk) w) as (w1 & Hemit & Hst & Hf & Hr).
      destruct (IH w1 (acc +:+ chunk)) as (w' & es & Hrun & Hst' & Hall & Hfile & Hf' & Hr').
      { destruct Hst as (_ & -> & _). cbn. by rewrite Hacc, lookup_insert_eq. }
      exists w', ([EvWriteChunk tmp chunk] ++ es).
      rewrite (bind_ok _ _ _ _ _ Hemit). split; [done|].
      split; [by eapply steps_app|]. split; [by constructor|].
      rewrite Hfile, str_app_assoc, Hf', Hr'. done.
Qed.

(** The body of the [try]: it ends normally only if the whole body arrived
    and its length is the declared one; then the temporary file holds it. *)
Lemma stream_to_spec (tmp : string) (res : response) (w : World) :
  ∃ w' r es,
    stream_to tmp res w = Some (w', r) ∧ steps w w' es ∧
    Forall (tmp_only tmp) es ∧
    failure w' = failure w ∧ requests w' = requests w ∧
    match r with
    | Ok _ =>
        stream_error res = None ∧
        files (fs w') !! tmp = Some (response_text res) ∧
        ∀ len, content_length res = Some len →
               len = String.length (response_text res)
    | Raise e =>
        stream_error res = Some e ∨
        (stream_error res = None ∧
         ∃ expected, content_length res = Some expected ∧
           expected ≠ String.length (response_text res) ∧
           e = WrongSize expected (String.length (response_text res)))
    end.
Proof.
  unfold stream_to.
  destruct (emit_spec (EvOpenWrite tmp) w) as (w1 & Hopen & Hst1 & Hf1 & Hr1).
  rewrite (bind_ok _ _ _ _ _ Hopen).
  destruct (write_chunks_spec tmp (chunks res) w1 "")
    as (w2 & es & Hrun & Hst2 & Hall & Hfile & Hf2 & Hr2).
  { destruct Hst1 as (_ & -> & _). cbn. by rewrite lookup_insert_eq. }
  rewrite (bind_ok _ _ _ _ _ Hrun).
  assert (steps w w2 ([EvOpenWrite tmp] ++ es)) as Hst by by eapply steps_app.
  assert (Forall (tmp_only tmp) ([EvOpenWrite tmp] ++ es)) as Hall'
    by by constructor.
  fold (response_text res) in Hfile.
  change ("" +:+ response_text res) with (response_text res) in Hfile.
  destruct (stream_error res) as [e|] eqn:Herr.
  - exists w2, (Raise e), ([EvOpenWrite tmp] ++ es).
    split; [reflexivity|]. conjs. by left.
  - rewrite (bind_ok _ _ w2 w2 tt) by done.
    rewrite (bind_ok _ _ w2 w2 w2) by done. rewrite Hfile. cbn [default].
    destruct (content_length res) as [expected|] eqn:Hlen.
    + case_bool_decide as Hsize.
      * exists w2, (Raise (WrongSize expected (String.length (response_text res)))),
          ([EvOpenWrite tmp] ++ es).
        split; [reflexivity|]. conjs.
        right. split; [done|]. exists expected.
        split; [done|]. split; [|done]. intros Heq. by apply Hsize.
      * exists w2, (Ok tt), ([EvOpenWrite tmp] ++ es).
        split; [reflexivity|]. conjs.
        intros len [= <-]. symmetry. exact Hsize.
    + exists w2, (Ok tt), ([EvOpenWrite tmp] ++ es).
      split; [reflexivity|]. conjs. done.
Qed.

Lemma try_stream_to (tmp : string) (res : response) (w w' : World)
    (r : outcome unit) :
  stream_to tmp res w = Some (w', r) →
  try_except (do stream_to tmp res then ret None) retriable (λ e, ret (Some e)) w
  = Some (w', match r with
              | Ok _ => Ok None
              | Raise e => if retriable e then Ok (Some e) else Raise e
              end).
Proof.
  intros Hs. unfold try_except, bind. rewrite Hs.
  destruct r as [[]|e]; [done|]. by destruct (retriable e).
Qed.

(** The retry loop with urllib3's policy: it always ends within
    [total + 2] rounds, it only requests the URL and writes the temporary
    file, it never sets [failure], and when it ends normally the temporary
    file holds a complete body of the declared length. *)
Lemma download_loop_spec (ext : Extern) (url tmp : string) :
  ∀ (bound : nat) (retry : Retry) (w : World),
    (Z.to_nat (total retry + 1) < bound)%nat →
    ∃ w' r es,
      download_loop ext bound url tmp retry w = Some (w', r) ∧
      steps w w' es ∧ Forall (tmp_only tmp) es ∧ failure w' = failure w ∧
      match r with
      | Ok _ =>
          ∃ n res, http ext n url = Replied res ∧ stream_error res = None ∧
            files (fs w') !! tmp = Some (response_text res) ∧
            ∀ len, content_length res = Some len →
                   len = String.length (response_text res)
      | Raise _ => True
      end.
Proof.
  induction bound as [|bound IH]; intros retry w Hb; [lia|].
  cbn [download_loop].
  destruct (http_get_spec ext url true w) as (w1 & r1 & Hget & Hst1 & Hreq1 & Hf1 & Hrep).
  destruct r1 as [res|e]; [|by exists w1, (Raise e), [EvHttpGet url];
                             rewrite (bind_raise _ _ _ _ _ Hget); conjs;
                             split; [by repeat constructor|done]].
  rewrite (bind_ok _ _ _ _ _ Hget). unfold raise_for_status.
  case_bool_decide as Hstatus.
  { exists w1, (Raise (HTTPError (status_code res))), [EvHttpGet url].
    split; [reflexivity|]. conjs. split; [by repeat constructor|done]. }
  rewrite (bind_ok _ _ w1 w1 tt) by done.
  destruct (stream_to_spec tmp res w1) as (w2 & r2 & es2 & Hs & Hst2 & Hall2 & Hf2 & Hreq2 & Hr2).
  pose proof (try_stream_to _ _ _ _ _ Hs) as Htry.
  assert (steps w w2 ([EvHttpGet url] ++ es2)) as Hst by by eapply steps_app.
  assert (Forall (tmp_only tmp) ([EvHttpGet url] ++ es2)) as Hall by by constructor.
  destruct r2 as [[]|e].
  - rewrite (bind_ok _ _ _ _ _ Htry).
    exists w2, (Ok tt), ([EvHttpGet url] ++ es2). split; [reflexivity|]. conjs.
    destruct Hr2 as (? & ? & ?). by exists (requests w), res.
  - destruct (retriable e) eqn:Hretr.
    + rewrite (bind_ok _ _ _ _ _ Htry).
      unfold lift, increment. destruct (total retry - 1 <? 0) eqn:Hex.
      * exists w2, (Raise (MaxRetryError e)), ([EvHttpGet url] ++ es2).
        split; [reflexivity|]. conjs. done.
      * rewrite (bind_ok _ _ w2 w2 (Some {| total := total retry - 1 |})) by done.
        destruct (IH {| total := total retry - 1 |} w2)
          as (w' & r & es & Hloop & Hst' & Hall' & Hf' & Hr').
        { apply Z.ltb_ge in Hex. cbn. lia. }
        exists w', r, (([EvHttpGet url] ++ es2) ++ es). split; [done|].
        split; [by eapply steps_app|]. split; [by apply Forall_app|].
        split; [congruence|done].
    + rewrite (bind_raise _ _ _ _ _ Htry).
      exists w2, (Raise e), ([EvHttpGet url] ++ es2).
      split; [reflexivity|]. conjs. done.
Qed.

Lemma prefix_snoc_cases {A} (l1 l : list A) (x : A) :
  l1 `prefix_of` (l ++ [x]) → l1 `prefix_of` l ∨ l1 = l ++ [x].
Proof.
  intros [k Hk]. destruct (decide (k = [])) as [->|Hne].
  - right. by rewrite app_nil_r in Hk.
  - left. destruct (exists_last Hne) as (k' & y & ->).
    rewrite app_assoc in Hk. apply app_inj_tail in Hk as [-> _].
    by exists k'.
Qed.

Lemma leaves_prefix (p : string) (es1 es : list event) (s : FS) :
  Forall (leaves p) es → es1 `prefix_of` es →
  files (replay es1 s) !! p = files s !! p.
Proof.
  intros Hall [k ->]. apply Forall_app in Hall as [Hall _].
  by apply leaves_replay.
Qed.

(** What [download] does, in full: it always returns; the events are those
    of [fetch_event]; no event before the last is the rename; the [failure]
    flag is left alone; and the destination changes only with the last event
    of a successful call, to the complete body of a response. *)
Lemma download_spec (ext : Extern) (url dest : string) (w : World) :
  ∃ w' r es,
    download ext url dest w = Some (w', r) ∧ steps w w' es ∧
    failure w' = failure w ∧
    tmp_path dest ≠ dest ∧ Forall (fetch_event dest) es ∧
    (∀ es1 e, es1 ++ [e] `prefix_of` es →
       e = EvRename (tmp_path dest) dest → es1 ++ [e] = es ∧ r = Ok tt) ∧
    ∀ es1, es1 `prefix_of` es →
      files (replay es1 (fs w)) !! dest = files (fs w) !! dest ∨
      (es1 = es ∧ r = Ok tt ∧
       ∃ n res, http ext n url = Replied res ∧ stream_error res = None ∧
         (∀ len, content_length res = Some len →
                 len = String.length (response_text res)) ∧
         files (fs w') !! dest = Some (response_text res)).
Proof.
  pose proof (tmp_path_ne dest) as Hne.
  unfold download, mkdir.
  destruct (emit_spec (EvMkdir (path_parent dest)) w) as (w1 & Hmk & Hst1 & Hfl1 & _).
  rewrite (bind_ok _ _ _ _ _ Hmk).
  destruct (download_loop_spec ext url (tmp_path dest)
              (S (S (Z.to_nat (total retries)))) retries w1)
    as (w2 & r & es & Hloop & Hst2 & Hall & Hfl2 & Hr); [cbn; lia|].
  assert (steps w w2 ([EvMkdir (path_parent dest)] ++ es)) as Hst
    by by eapply steps_app.
  assert (Forall (leaves dest) ([EvMkdir (path_parent dest)] ++ es)) as Hleaves.
  { constructor; [done|]. eapply Forall_impl; [exact Hall|].
    intros e. by apply tmp_only_leaves. }
  assert (Forall (fetch_event dest) ([EvMkdir (path_parent dest)] ++ es)) as Hfetch.
  { constructor; [done|]. eapply Forall_impl; [exact Hall|].
    intros [] He; try done; simpl in *; by subst. }
  assert (∀ es1 e, es1 ++ [e] `prefix_of` [EvMkdir (path_parent dest)] ++ es →
                   e ≠ EvRename (tmp_path dest) dest) as Hnorename.
  { intros es1 e [k Hk] ->. rewrite Hk in Hleaves.
    apply Forall_app in Hleaves as [Hl _]. apply Forall_app in Hl as [_ Hl].
    apply Forall_cons in Hl as [Hl _]. simpl in Hl. by destruct Hl. }
  destruct r as [[]|e].
  - rewrite (bind_ok _ _ _ _ _ Hloop).
    destruct Hr as (n & res & Hrep & Herr & Hfile & Hlen).
    unfold rename. rewrite Hfile. cbn [bool_decide orb].
    rewrite bool_decide_eq_true_2 by eauto. cbn [orb].
    destruct (emit_spec (EvRename (tmp_path dest) dest) w2) as (w3 & Hren & Hst3 & Hfl3 & _).
    exists w3, (Ok tt), (([EvMkdir (path_parent dest)] ++ es) ++ [EvRename (tmp_path dest) dest]).
    split; [done|]. split; [by eapply steps_app|]. split; [congruence|]. split; [done|].
    split; [apply Forall_app; split; [done|by repeat constructor]|].
    split.
    { intros es1 e Hpre ->. apply prefix_snoc_cases in Hpre as [Hpre|Hpre]; [|done].
      by destruct (Hnorename _ _ Hpre). }
    intros es1 Hpre. apply prefix_snoc_cases in Hpre as [Hpre| ->].
    + left. by eapply leaves_prefix.
    + right. conjs. exists n, res. conjs.
      destruct Hst3 as (_ & -> & _). cbn. rewrite Hfile. cbn.
      by rewrite lookup_insert_eq.
  - rewrite (bind_raise _ _ _ _ _ Hloop).
    exists w2, (Raise e), ([EvMkdir (path_parent dest)] ++ es).
    conjs. split.
    { intros es1 e' Hpre ->. by destruct (Hnorename _ _ Hpre). }
    intros es1 Hpre. left. by eapply leaves_prefix.
Qed.

(** C5: [download] always returns; it writes response bytes to the hidden
    sibling [.{name}.tmp] only, which is never the destination; the only
    event that concerns the destination is the final rename of the temporary
    file; so in every intermediate state (after every prefix of the events)
    the destination holds what it held before the call, and after the last
    event of a successful call it holds the complete body of a response
    whose stream did not break and whose declared Content-Length, if any, is
    the length of that body. *)
Theorem download_atomic (ext : Extern) (url dest : string) (w : World) :
  ∃ w' r es,
    download ext url dest w = Some (w', r) ∧ steps w w' es ∧
    tmp_path dest ≠ dest ∧ Forall (fetch_event dest) es ∧
    (∀ es1 e, es1 ++ [e] `prefix_of` es →
       e = EvRename (tmp_path dest) dest → es1 ++ [e] = es ∧ r = Ok tt) ∧
    ∀ es1, es1 `prefix_of` es →
      files (replay es1 (fs w)) !! dest = files (fs w) !! dest ∨
      (es1 = es ∧ r = Ok tt ∧
       ∃ n res, http ext n url = Replied res ∧ stream_error res = None ∧
         (∀ len, content_length res = Some len →
                 len = String.length (response_text res)) ∧
         files (fs w') !! dest = Some (response_text res)).
Proof.
  destruct (download_spec ext url dest w)
    as (w' & r & es & Hd & Hst & _ & Hne & Hall & Hren & Hobs).
  by exists w', r, es.
Qed.

(** ** Retry exhaustion *)

Lemma download_loop_all_fail (ext : Extern) (url tmp : string) :
  always_fails ext url →
  ∀ (bound : nat) (retry : Retry) (w : World),
    0 ≤ total retry → (Z.to_nat (total retry + 1) < bound)%nat →
    ∃ w' e,
      download_loop ext bound url tmp retry w
        = Some (w', Raise (MaxRetryError e)) ∧
      retriable e = true ∧
      requests w' = (requests w + S (Z.to_nat (total retry)))%nat ∧
      failure w' = failure w.
Proof.
  intros Hfail. induction bound as [|bound IH]; intros retry w Htot Hb; [lia|].
  cbn [download_loop].
  destruct (Hfail (requests w)) as (res & Hrep & Hstatus & Hbody).
  destruct (http_get_spec ext url true w)
    as (w1 & r1 & Hget & _ & Hreq1 & Hf1 & Hr1).
  destruct r1 as [res'|e];
    [|destruct Hr1 as [?|(? & ? & ? & ?)]; congruence].
  assert (res' = res) as -> by congruence.
  rewrite (bind_ok _ _ _ _ _ Hget). unfold raise_for_status.
  rewrite bool_decide_eq_false_2 by done.
  rewrite (bind_ok _ _ w1 w1 tt) by done.
  destruct (stream_to_spec tmp res w1)
    as (w2 & r2 & es2 & Hs & _ & _ & Hf2 & Hreq2 & Hr2).
  pose proof (try_stream_to _ _ _ _ _ Hs) as Htry.
  assert (∃ e, r2 = Raise e ∧ retriable e = true) as (e & -> & Hretr).
  { destruct r2 as [[]|e].
    - destruct Hr2 as (Herr & _ & Hlen).
      destruct Hbody as [(e & He & _)|(_ & len & Hcl & Hne)]; [congruence|].
      by destruct (Hne (Hlen _ Hcl)).
    - exists e. split; [done|].
      destruct Hr2 as [Herr|(_ & expected & _ & _ & ->)]; [|done].
      destruct Hbody as [(e' & He' & Hretr)|(Hnone & _)]; congruence. }
  rewrite Hretr in Htry. rewrite (bind_ok _ _ _ _ _ Htry).
  unfold lift, increment. destruct (total retry - 1 <? 0) eqn:Hex.
  - exists w2, e. split; [reflexivity|]. split; [done|].
    apply Z.ltb_lt in Hex. split; [|congruence].
    rewrite Hreq2, Hreq1. assert (total retry = 0) as -> by lia. simpl. lia.
  - rewrite (bind_ok _ _ w2 w2 (Some {| total := total retry - 1 |})) by done.
    apply Z.ltb_ge in Hex.
    destruct (IH {| total := total retry - 1 |} w2) as (w' & e' & Hloop & He' & Hreq & Hf');
      [cbn; lia | cbn; lia |].
    exists w', e'. split; [done|]. split; [done|]. split; [|congruence].
    rewrite Hreq, Hreq2, Hreq1. cbn [total]. lia.
Qed.

(** C3 (amended): when every attempt of a download fails while the body is
    read, with a connection error or a size mismatch, the fetcher makes the
    first attempt and then exactly the five retries of the configured budget
    [Retry(total=5)], six requests in all, and then ends with an error. *)
Theorem download_retry_exhaustion (ext : Extern) (url dest : string) (w : World) :
  always_fails ext url →
  ∃ w' e,
    download ext url dest w = Some (w', Raise e) ∧
    requests w' = (requests w + 1 + Z.to_nat (total retries))%nat ∧
    requests w' = (requests w + 6)%nat.
Proof.
  intros Hfail. unfold download, mkdir.
  destruct (emit_spec (EvMkdir (path_parent dest)) w) as (w1 & Hmk & _ & _ & Hreq1).
  rewrite (bind_ok _ _ _ _ _ Hmk).
  destruct (download_loop_all_fail ext url (tmp_path dest) Hfail
              (S (S (Z.to_nat (total retries)))) retries w1)
    as (w2 & e & Hloop & _ & Hreq2 & _); [done | cbn; lia |].
  rewrite (bind_raise _ _ _ _ _ Hloop).
  exists w2, (MaxRetryError e). split; [done|].
  rewrite Hreq2, Hreq1. cbn. lia.
Qed.

Lemma download_retry_exhaustion_witness :
  ∃ w' e,
    download (demo_ext (λ _ _, serve_broken "ab") 0)
      "https://cache.nixos.org/nar/abc.nar.xz" "store/nar/abc.nar.xz"
      (start empty_fs) = Some (w', Raise e) ∧
    requests w' = 6%nat.
Proof.
  destruct (download_retry_exhaustion (demo_ext (λ _ _, serve_broken "ab") 0)
              "https://cache.nixos.org/nar/abc.nar.xz" "store/nar/abc.nar.xz"
              (start empty_fs)) as (w' & e & Hd & _ & Hreq).
  - intros n. eexists. split; [reflexivity|]. split; [cbn; lia|].
    left. by eexists.
  - exists w', e. split; [exact Hd|exact Hreq].
Defined.

(** C3, as stated, fails: with every body broken by a connection error the
    fetcher makes six attempts, not five; what reaches the caller is
    urllib3's [MaxRetryError], not the connection error; and [download] does
    not set the [failure] flag. *)
Lemma download_retry_counterexample :
  ∃ w',
    download (demo_ext (λ _ _, serve_broken "ab") 0)
      "https://cache.nixos.org/nar/abc.nar.xz" "store/nar/abc.nar.xz"
      (start empty_fs)
    = Some (w', Raise (MaxRetryError (ConnectionError "reset"))) ∧
    requests w' = 6%nat ∧ requests w' ≠ 5%nat ∧ failure w' = false.
Proof.
  eexists. split; [vm_compute; reflexivity|]. vm_compute.
  repeat split; try reflexivity. discriminate.
Qed.

(** ** Batches and the closure-expansion oracle *)

Lemma range_step_batches {A} (step : nat) (l : list A) :
  (0 < step)%nat →
  let batches := map (λ i, take step (drop i l)) (range_step (length l) step) in
  concat batches = l ∧
  ∀ i b, batches !! i = Some b →
    b = take step (drop (i * step) l) ∧ b ≠ [].
Proof.
  intros Hstep. unfold range_step. cbv zeta. rewrite map_map.
  set (m := ((length l + step - 1) / step)%nat).
  assert (length l ≤ m * step ∧ (m = 0 ∨ (m - 1) * step < length l))%nat as [Hup Hlow].
  { pose proof (Nat.div_mod_eq (length l + step - 1) step) as Hdm.
    pose proof (Nat.mod_upper_bound (length l + step - 1) step ltac:(lia)) as Hmod.
    fold m in Hdm. split; [nia|]. destruct m; [by left|right]. nia. }
  split.
  - assert (∀ k, concat (map (λ x, take step (drop (x * step) l)) (seq 0 k))
                 = take (k * step) l) as Hcat.
    { induction k as [|k IHk]; [done|].
      rewrite seq_S, map_app, concat_app, IHk. simpl. rewrite app_nil_r.
      rewrite take_take_drop. f_equal. lia. }
    rewrite Hcat. by apply take_ge.
  - intros i b Hb.
    change (map ?f ?l') with (f <$> l') in Hb.
    apply list_lookup_fmap_Some in Hb as (k & -> & Hk).
    apply lookup_seq in Hk as [-> Hi]. simpl. split; [done|].
    intros Hnil. apply (f_equal length) in Hnil.
    rewrite length_take, length_drop in Hnil. simpl in Hnil.
    destruct Hlow as [->|Hlow]; [lia|]. nia.
Qed.

Lemma path_batches_spec (cfg : Config) (paths : list string) :
  0 < PATH_BATCH cfg →
  ∃ batches,
    path_batches cfg paths = Ok batches ∧ concat batches = paths ∧
    ∀ i b, batches !! i = Some b →
      b = take (Z.to_nat (PATH_BATCH cfg))
               (drop (i * Z.to_nat (PATH_BATCH cfg)) paths) ∧ b ≠ [].
Proof.
  intros Hpos. unfold path_batches.
  rewrite bool_decide_eq_false_2 by lia. rewrite bool_decide_eq_false_2 by lia.
  eexists. split; [reflexivity|].
  apply (range_step_batches (Z.to_nat (PATH_BATCH cfg)) paths). lia.
Qed.

(** The loop over the batches asks the oracle once per batch, in order, up
    to and including the first batch it fails on; it changes nothing else. *)
Lemma expand_batches_spec (ext : Extern) (upstream_binary_cache : string)
    (batches : list (list string)) :
  ∀ (todo : list (list string)) (seen_paths : gset string) (w : World),
  ∃ w' r,
    expand_batches ext upstream_binary_cache batches todo seen_paths w
      = Some (w', Ok r) ∧
    fs w' = fs w ∧ requests w' = requests w ∧ failure w' = failure w ∧
    match r with
    | Some _ =>
        Forall (λ b, (path_info_json ext upstream_binary_cache b).1 = 0) batches ∧
        trace w' = trace w ++ map (EvPathInfo upstream_binary_cache) batches
    | None =>
        ∃ pre b post,
          batches = pre ++ b :: post ∧
          Forall (λ b, (path_info_json ext upstream_binary_cache b).1 = 0) pre ∧
          (path_info_json ext upstream_binary_cache b).1 ≠ 0 ∧
          trace w' = trace w ++ map (EvPathInfo upstream_binary_cache) (pre ++ [b])
    end.
Proof.
  induction batches as [|batch rest IH]; intros todo seen_paths w.
  - exists w, (Some todo). split; [reflexivity|]. conjs.
    simpl. by rewrite app_nil_r.
  - cbn [expand_batches].
    destruct (emit_spec (EvPathInfo upstream_binary_cache batch) w)
      as (w1 & Hemit & (Htr & Hfs & _) & Hf & Hreq).
    rewrite (bind_ok _ _ _ _ _ Hemit).
    destruct (path_info_json ext upstream_binary_cache batch) as [rc infos] eqn:Hrc.
    case_bool_decide as Hfail.
    + exists w1, None. split; [reflexivity|]. conjs.
      exists [], batch, rest. rewrite Hrc. conjs. by rewrite Htr.
    + destruct (foldl add_info (todo, seen_paths) infos) as [todo' seen'].
      destruct (IH todo' seen' w1) as (w' & r & Hrun & Hfs' & Hreq' & Hf' & Hr).
      exists w', r. split; [done|]. rewrite Hfs', Hreq', Hf'. conjs.
      destruct r as [todo''|].
      * destruct Hr as [Hall Htr']. split.
        -- constructor; [by rewrite Hrc|done].
        -- rewrite Htr', Htr. simpl. by rewrite <- app_assoc.
      * destruct Hr as (pre & b & post & -> & Hall & Hb & Htr').
        exists (batch :: pre), b, post. split; [done|]. split.
        -- constructor; [by rewrite Hrc|done].
        -- split; [done|]. rewrite Htr', Htr. simpl. by rewrite <- app_assoc.
Qed.

(** C7: with a positive batch size, the store paths of a release are cut
    into consecutive batches of that size (the last one may be shorter, none
    is empty); the oracle is asked once per batch, in order, up to the first
    batch it fails on; and when it fails on a batch, the mirroring of the
    release stops there: no download is started (no request, no change of
    the file system) and the staged symlink is not renamed onto the live
    one. *)
Theorem bulk_mirror_batches (cfg : Config) (ext : Extern) (channel raw : string)
    (has_cache_info : bool) (paths : list string) (w w1 : World) :
  0 < PATH_BATCH cfg →
  files (fs w) !! under (update_link channel) ".original-binary-cache-url" w
    = Some raw →
  (if has_cache_info then ret tt
   else fetch_cache_info cfg ext (str_rstrip_slash raw)) w = Some (w1, Ok tt) →
  read_store_paths ext (update_link channel) w1 = Some (w1, Ok paths) →
  ∃ batches w2 r,
    path_batches cfg paths = Ok batches ∧ concat batches = paths ∧
    (∀ i b, batches !! i = Some b →
       b = take (Z.to_nat (PATH_BATCH cfg))
                (drop (i * Z.to_nat (PATH_BATCH cfg)) paths) ∧ b ≠ []) ∧
    expand_batches ext (str_rstrip_slash raw) batches [] ∅ w1 = Some (w2, Ok r) ∧
    fs w2 = fs w1 ∧ requests w2 = requests w1 ∧ failure w2 = failure w1 ∧
    match r with
    | Some _ =>
        Forall (λ b, (path_info_json ext (str_rstrip_slash raw) b).1 = 0) batches ∧
        trace w2 = trace w1 ++ map (EvPathInfo (str_rstrip_slash raw)) batches
    | None =>
        (∃ pre b post,
           batches = pre ++ b :: post ∧
           Forall (λ b, (path_info_json ext (str_rstrip_slash raw) b).1 = 0) pre ∧
           (path_info_json ext (str_rstrip_slash raw) b).1 ≠ 0 ∧
           trace w2 = trace w1
                      ++ map (EvPathInfo (str_rstrip_slash raw)) (pre ++ [b])) ∧
        update_channel cfg ext channel has_cache_info w = Some (w2, Ok tt)
    end.
Proof.
  intros Hpos Hraw Hinfo Hpaths.
  destruct (path_batches_spec cfg paths Hpos) as (batches & Hb & Hcat & Hlook).
  destruct (expand_batches_spec ext (str_rstrip_slash raw) batches [] ∅ w1)
    as (w2 & r & Hexp & Hfs & Hreq & Hf & Hr).
  exists batches, w2, r. conjs. destruct r as [todo|]; [exact Hr|].
  split; [exact Hr|]. unfold update_channel.
  rewrite (bind_ok _ _ w w w) by done.
  rewrite (bind_ok _ _ w w raw) by (unfold read_text; by rewrite Hraw).
  rewrite (bind_ok _ _ _ _ _ Hinfo). rewrite (bind_ok _ _ _ _ _ Hpaths).
  rewrite (bind_ok _ _ w1 w1 batches) by (unfold lift; by rewrite Hb).
  rewrite (bind_ok _ _ _ _ _ Hexp).
  by rewrite (bind_ok _ _ w2 w2 true).
Qed.

Lemma bulk_mirror_batches_witness :
  ∃ w2,
    update_channel small_batch_cfg (demo_ext (λ _ _, serve_ok cache_info_30) 1)
      demo_channel false (start staged_fs) = Some (w2, Ok tt) ∧
    requests w2 = 1%nat ∧ links (fs w2) !! demo_channel = None ∧
    links (fs w2) !! update_link demo_channel = Some demo_target.
Proof.
  edestruct (λ paths, bulk_mirror_batches small_batch_cfg
               (demo_ext (λ _ _, serve_ok cache_info_30) 1) demo_channel
               "https://cache.nixos.org/" false paths (start staged_fs))
    as (batches & w2 & r & Hb & _ & _ & Hexp & _ & _ & _ & Hr);
    [reflexivity | vm_compute; reflexivity | vm_compute; reflexivity
    | vm_compute; reflexivity |].
  vm_compute in Hb. injection Hb as <-.
  vm_compute in Hexp. injection Hexp as <- <-.
  destruct Hr as [_ Hr]. eexists. split; [exact Hr|].
  vm_compute. repeat split; reflexivity.
Defined.

(** ** The exit code *)

(** C2 fails on the code.  First run: one staged channel, every download
    succeeds, [nix path-info] returns 1 on the first batch; the channel is
    not promoted, yet [failure] stays [False] and the exit code is 0.
    Second run: the oracle succeeds and every connection for a store file is
    refused; [try_mirror] turns the [ConnectionError] into [False], the
    channel is not promoted, and again [failure] stays [False] and the exit
    code is 0. *)
Theorem unflagged_failures_exit_zero :
  (∃ w',
     main demo_cfg (demo_ext (λ _ _, serve_ok cache_info_30) 1) (start staged_fs)
       = Some (w', 0) ∧
     failure w' = false ∧ links (fs w') !! demo_channel = None ∧
     last (trace w')
       = Some (EvPathInfo "https://cache.nixos.org"
                 ["/nix/store/abc123-hello-1.0"; "/nix/store/def456-world-2.0"])) ∧
  (∃ w',
     main demo_cfg (demo_ext serve_first_only 0) (start staged_fs) = Some (w', 0) ∧
     failure w' = false ∧ links (fs w') !! demo_channel = None ∧
     files (fs w') !! "store/abc123.narinfo" = None).
Proof.
  split; eexists; (split; [vm_compute; reflexivity|]); vm_compute;
    repeat split; reflexivity.
Qed.

(** ** The release publisher *)
















(** ** The garbage collector: the sweep *)







(** ** The garbage collector: the releases to keep *)

Lemma gc_visit_unmarked (ext : Extern) (thr : Z) (release : string)
    (st : gc_state) (w : World) :
  marked w release = false →
  gc_visit ext thr release st w = Some (w, Ok st).
Proof.
  intros Hm. unfold gc_visit. rewrite (bind_ok _ _ w w w) by done.
  unfold marked in Hm. by rewrite Hm.
Qed.

Lemma gc_visit_marked (ext : Extern) (thr d : Z) (release : string)
    (st : gc_state) (w : World) :
  marked w release = true → released ext w release = Some d →
  gc_visit ext thr release st w
  = Some (w, Ok
      (let alive' := if bool_decide (thr ≤ d)
                     then {[release]} ∪ alive st else alive st in
       if match last_updated st !! channel_of release with
          | None => true
          | Some seen => bool_decide (seen < d)
          end
       then {| last_updated := <[channel_of release := d]> (last_updated st);
               latest := <[channel_of release := release]> (latest st);
               alive := alive' |}
       else {| last_updated := last_updated st; latest := latest st;
               alive := alive' |})).
Proof.
  intros Hm Hd. unfold gc_visit. rewrite (bind_ok _ _ w w w) by done.
  unfold marked in Hm. rewrite Hm. cbn [negb]. unfold released in Hd.
  destruct (files (fs w) !! (release +:+ "/" +:+ ".released-time"))
    as [date_str|] eqn:Hfile; [|done].
  destruct (strptime ext date_str) as [d0|] eqn:Hparse; [|done].
  injection Hd as ->.
  rewrite (bind_ok _ _ w w date_str) by (unfold read_text; by rewrite Hfile).
  rewrite (bind_ok _ _ w w d) by (unfold lift; by rewrite Hparse).
  fold (channel_of release).
  by destruct (match last_updated st !! channel_of release with
               | None => true | Some seen => bool_decide (seen < d) end).
Qed.

Lemma gc_inv_step (ext : Extern) (thr : Z) (w : World) (seen : list string)
    (release : string) (st : gc_state) :
  gc_inv ext thr w seen st →
  (marked w release = true → is_Some (released ext w release)) →
  ∃ st', gc_visit ext thr release st w = Some (w, Ok st') ∧
         gc_inv ext thr w (seen ++ [release]) st'.
Proof.
  intros (Halive & Hlatest & Hmax) Hdate.
  destruct (marked w release) eqn:Hm.
  2:{ exists st. split; [by apply gc_visit_unmarked|]. split; [|split].
      - intros r. rewrite Halive, elem_of_app, list_elem_of_singleton.
        split; [naive_solver|]. intros [[?| ->] [? ?]]; [done|congruence].
      - intros c. specialize (Hlatest c).
        destruct (last_updated st !! c), (latest st !! c); try done.
        rewrite elem_of_app. naive_solver.
      - intros r' d'. rewrite elem_of_app, list_elem_of_singleton.
        intros [?| ->]; [by apply Hmax|congruence]. }
  destruct (Hdate eq_refl) as [d Hd].
  eexists. split; [by apply gc_visit_marked|]. cbv zeta.
  assert (∀ A : gset string, (∀ r, r ∈ A ↔ r ∈ alive st ∨ (r = release ∧ thr ≤ d)) →
               ∀ r, r ∈ A ↔ r ∈ seen ++ [release] ∧ marked w r = true ∧
                            ∃ d0, released ext w r = Some d0 ∧ thr ≤ d0) as Hal.
  { intros A HA r. rewrite HA, Halive, elem_of_app, list_elem_of_singleton.
    split.
    - intros [(? & ? & ?)|[-> ?]]; [by auto|]. split; [by right|]. eauto.
    - intros ([?| ->] & ? & d0 & ? & ?); [left; eauto|].
      right. split; [done|]. congruence. }
  assert (∀ r, r ∈ (if bool_decide (thr ≤ d) then {[release]} ∪ alive st
                    else alive st)
               ↔ r ∈ alive st ∨ (r = release ∧ thr ≤ d)) as Hal'.
  { intros r. case_bool_decide; [set_solver|naive_solver]. }
  destruct (last_updated st !! channel_of release) as [d0|] eqn:Hlu.
  - destruct (bool_decide (d0 < d)) eqn:Hnewer;
      [apply bool_decide_eq_true in Hnewer|apply bool_decide_eq_false in Hnewer].
    + unfold gc_inv. cbn [alive last_updated latest]. split; [apply Hal, Hal'|]. split.
      * intros c. destruct (decide (channel_of release = c)) as [<-|Hne].
        -- rewrite !lookup_insert_eq. rewrite elem_of_app, list_elem_of_singleton.
           auto.
        -- rewrite !lookup_insert_ne by done. specialize (Hlatest c).
           destruct (last_updated st !! c), (latest st !! c); try done.
           rewrite elem_of_app. naive_solver.
      * intros r' d'. rewrite elem_of_app, list_elem_of_singleton.
        intros [Hin| ->] Hm' Hd'.
        -- destruct (Hmax r' d' Hin Hm' Hd') as (d1 & Hd1 & Hle).
           destruct (decide (channel_of release = channel_of r')) as [Heq|Hne].
           ++ rewrite <- Heq, lookup_insert_eq. exists d. split; [done|].
              rewrite <- Heq in Hd1. assert (d1 = d0) as -> by congruence. lia.
           ++ rewrite lookup_insert_ne by done. eauto.
        -- rewrite lookup_insert_eq. exists d. split; [done|].
           assert (d' = d) as -> by congruence. lia.
    + unfold gc_inv. cbn [alive last_updated latest]. split; [apply Hal, Hal'|]. split.
      * intros c. specialize (Hlatest c).
        destruct (last_updated st !! c), (latest st !! c); try done.
        rewrite elem_of_app. naive_solver.
      * intros r' d'. rewrite elem_of_app, list_elem_of_singleton.
        intros [Hin| ->] Hm' Hd'; [by apply Hmax|].
        exists d0. split; [done|]. assert (d' = d) as -> by congruence. lia.
  - unfold gc_inv. cbn [alive last_updated latest]. split; [apply Hal, Hal'|]. split.
    + intros c. destruct (decide (channel_of release = c)) as [<-|Hne].
      * rewrite !lookup_insert_eq. rewrite elem_of_app, list_elem_of_singleton.
        auto.
      * rewrite !lookup_insert_ne by done. specialize (Hlatest c).
        destruct (last_updated st !! c), (latest st !! c); try done.
        rewrite elem_of_app. naive_solver.
    + intros r' d'. rewrite elem_of_app, list_elem_of_singleton.
      intros [Hin| ->] Hm' Hd'.
      * destruct (Hmax r' d' Hin Hm' Hd') as (d1 & Hd1 & Hle).
        destruct (decide (channel_of release = channel_of r')) as [Heq|Hne].
        -- rewrite <- Heq in Hd1. congruence.
        -- rewrite lookup_insert_ne by done. eauto.
      * rewrite lookup_insert_eq. exists d. split; [done|].
        assert (d' = d) as -> by congruence. lia.
Qed.

Lemma gc_scan_spec (ext : Extern) (thr : Z) (w : World) (releases : list string) :
  ∀ (seen : list string) (st : gc_state),
    gc_inv ext thr w seen st →
    (∀ r, r ∈ releases → marked w r = true → is_Some (released ext w r)) →
    ∃ st', gc_scan ext thr releases st w = Some (w, Ok st') ∧
           gc_inv ext thr w (seen ++ releases) st'.
Proof.
  induction releases as [|release rest IH]; intros seen st Hinv Hdates.
  - exists st. split; [done|]. by rewrite app_nil_r.
  - destruct (gc_inv_step ext thr w seen release st Hinv) as (st1 & Hvisit & Hinv1).
    { apply Hdates. by left. }
    destruct (IH (seen ++ [release]) st1 Hinv1) as (st' & Hscan & Hinv').
    { intros r Hr. apply Hdates. by right. }
    exists st'. cbn [gc_scan]. rewrite (bind_ok _ _ _ _ _ Hvisit).
    split; [done|]. by rewrite <- app_assoc in Hinv'.
Qed.

(** X1: the releases that garbage collection keeps (lines 425-447).  When
    the release date of every release with the marker can be read, the loop
    ends normally without changing anything, and the set it computes
    contains only listed releases with the marker; every such release
    released at or after the threshold; for every channel that has a release
    with the marker, a release of that channel whose date is the latest of
    the channel, however old; a release older than the threshold only if its
    date is the latest of its channel; and at most one release older than
    the threshold per channel. *)
Theorem retained_releases (ext : Extern) (thr : Z) (releases : list string)
    (w : World) :
  (∀ r, r ∈ releases → marked w r = true → is_Some (released ext w r)) →
  ∃ A : gset string,
    gc_alive ext thr releases w = Some (w, Ok A) ∧
    (∀ r, r ∈ A → r ∈ releases ∧ marked w r = true) ∧
    (∀ r d, r ∈ releases → marked w r = true → released ext w r = Some d →
            thr ≤ d → r ∈ A) ∧
    (∀ r', r' ∈ releases → marked w r' = true →
       ∃ r d, r ∈ A ∧ channel_of r = channel_of r' ∧
              released ext w r = Some d ∧
              ∀ r'' d'', r'' ∈ releases → marked w r'' = true →
                channel_of r'' = channel_of r' →
                released ext w r'' = Some d'' → d'' ≤ d) ∧
    (∀ r d, r ∈ A → released ext w r = Some d → d < thr →
       ∀ r'' d'', r'' ∈ releases → marked w r'' = true →
         channel_of r'' = channel_of r →
         released ext w r'' = Some d'' → d'' ≤ d) ∧
    (∀ r1 r2 d1 d2, r1 ∈ A → r2 ∈ A → channel_of r1 = channel_of r2 →
       released ext w r1 = Some d1 → released ext w r2 = Some d2 →
       d1 < thr → d2 < thr → r1 = r2).
Proof.
  intros Hdates.
  destruct (gc_scan_spec ext thr w releases []
              {| last_updated := ∅; latest := ∅; alive := ∅ |})
    as (st & Hscan & Halive & Hlatest & Hmax); [|done|].
  { split; [|split].
    - intros r. cbn. rewrite elem_of_empty, elem_of_nil. naive_solver.
    - intros c. cbn. by rewrite !lookup_empty.
    - intros r' d' Hin. by apply elem_of_nil in Hin. }
  rewrite app_nil_l in Halive, Hlatest, Hmax.
  assert (∀ r, r ∈ (map_img (latest st) : gset string) →
               ∃ d, last_updated st !! channel_of r = Some d ∧
                    latest st !! channel_of r = Some r ∧
                    r ∈ releases ∧ marked w r = true ∧ released ext w r = Some d)
    as Himg.
  { intros r Hr. apply elem_of_map_img in Hr as [c Hc]. specialize (Hlatest c).
    rewrite Hc in Hlatest. destruct (last_updated st !! c) as [d|] eqn:Hd; [|done].
    destruct Hlatest as (? & ? & <- & ?). by exists d. }
  assert (∀ r d r'' d'', r ∈ (map_img (latest st) : gset string) →
            released ext w r = Some d →
            r'' ∈ releases → marked w r'' = true →
            channel_of r'' = channel_of r →
            released ext w r'' = Some d'' → d'' ≤ d) as Hnewest.
  { intros r d r'' d'' Hr Hd Hin Hm Hc Hd''.
    destruct (Himg r Hr) as (d0 & Hlu & _ & _ & _ & Hd0).
    destruct (Hmax r'' d'' Hin Hm Hd'') as (d1 & Hd1 & Hle).
    rewrite Hc in Hd1. congruence. }
  exists (alive st ∪ map_img (latest st)). split.
  { unfold gc_alive. by rewrite (bind_ok _ _ _ _ _ Hscan). }
  split.
  { intros r [Hr|Hr]%elem_of_union.
    - apply Halive in Hr as (? & ? & _). done.
    - destruct (Himg r Hr) as (? & _ & _ & ? & ? & _). done. }
  split.
  { intros r d Hin Hm Hd Hle. apply elem_of_union. left. apply Halive. eauto. }
  split.
  { intros r' Hin Hm. destruct (Hdates r' Hin Hm) as [d' Hd'].
    destruct (Hmax r' d' Hin Hm Hd') as (d & Hlu & _).
    specialize (Hlatest (channel_of r')). rewrite Hlu in Hlatest.
    destruct (latest st !! channel_of r') as [r|] eqn:Hr; [|done].
    destruct Hlatest as (_ & _ & Hc & Hd).
    assert (r ∈ (map_img (latest st) : gset string)) as Himgr.
    { apply elem_of_map_img. eauto. }
    exists r, d. split; [apply elem_of_union; by right|]. split; [done|].
    split; [done|]. intros r'' d'' Hin'' Hm'' Hc'' Hd''.
    apply (Hnewest r d r'' d''); try done. congruence. }
  split.
  { intros r d [Hr|Hr]%elem_of_union Hd Hold.
    - apply Halive in Hr as (_ & _ & d0 & Hd0 & Hle). simplify_eq. lia.
    - intros r'' d''. by apply Hnewest. }
  intros r1 r2 d1 d2 [Hr1|Hr1]%elem_of_union [Hr2|Hr2]%elem_of_union Hc Hd1 Hd2 Ho1 Ho2.
  - apply Halive in Hr1 as (_ & _ & d0 & Hd0 & Hle). simplify_eq. lia.
  - apply Halive in Hr1 as (_ & _ & d0 & Hd0 & Hle). simplify_eq. lia.
  - apply Halive in Hr2 as (_ & _ & d0 & Hd0 & Hle). simplify_eq. lia.
  - destruct (Himg r1 Hr1) as (_ & _ & Hl1 & _).
    destruct (Himg r2 Hr2) as (_ & _ & Hl2 & _). rewrite Hc in Hl1. congruence.
Qed.

Lemma retained_releases_witness :
  ∃ A : gset string,
    gc_alive (demo_ext (λ _ _, serve_ok "") 0)
      (now (demo_ext (λ _ _, serve_ok "") 0) - RETAIN_DAYS demo_cfg)
      ["releases/nixos-23.11-small@r1"; "releases/nixos-23.11-small@r2"]
      (start two_releases_fs) = Some (start two_releases_fs, Ok A) ∧
    "releases/nixos-23.11-small@r1" ∈ A ∧ "releases/nixos-23.11-small@r2" ∈ A.
Proof.
  destruct (retained_releases (demo_ext (λ _ _, serve_ok "") 0)
              (now (demo_ext (λ _ _, serve_ok "") 0) - RETAIN_DAYS demo_cfg)
              ["releases/nixos-23.11-small@r1"; "releases/nixos-23.11-small@r2"]
              (start two_releases_fs)) as (A & Hrun & _ & Hrecent & _).
  - intros r Hr _. apply elem_of_cons in Hr as [->|Hr];
      [vm_compute; eexists; reflexivity|].
    apply list_elem_of_singleton in Hr as ->. vm_compute. eexists. reflexivity.
  - exists A. split; [exact Hrun|]. split.
    + eapply Hrecent; [by left | vm_compute; reflexivity
                      | vm_compute; reflexivity | vm_compute; discriminate].
    + eapply Hrecent; [by right; left | vm_compute; reflexivity
                      | vm_compute; reflexivity | vm_compute; discriminate].
Defined.

(** ** Splitting strings *)

Lemma has_char_cons (c c0 : ascii) (s : string) :
  has_char c (String c0 s) = false ↔ c ≠ c0 ∧ has_char c s = false.
Proof.
  unfold has_char. simpl. rewrite orb_false_iff, andb_false_iff.
  rewrite bool_decide_eq_false. split.
  - intros [[?|?] ?]; [done|]. by destruct s.
  - intros [? ?]. auto.
Qed.

Lemma has_char_app (c : ascii) (s t : string) :
  has_char c (s +:+ t) = false ↔ has_char c s = false ∧ has_char c t = false.
Proof.
  induction s as [|c0 s IH].
  - split; [by intros ?|by intros [_ ?]].
  - rewrite str_app_cons, !has_char_cons, IH. naive_solver.
Qed.

(** Splitting at a separator whose first character does not occur before
    it. *)
Lemma str_split_once_fresh (c : ascii) (sep' h n : string) :
  has_char c h = false →
  str_split_once (String c sep') (h +:+ String c sep' +:+ n) = Some (h, n).
Proof.
  induction h as [|c0 h IH]; intros Hh.
  - change ("" +:+ String c sep' +:+ n) with (String c sep' +:+ n).
    destruct (String c sep' +:+ n) eqn:Heq; [done|].
    cbn [str_split_once]. rewrite <- Heq.
    rewrite (proj2 (str_startswith_spec _ _)) by eauto.
    by rewrite str_drop_app.
  - apply has_char_cons in Hh as [Hne Hh]. rewrite str_app_cons.
    cbn [str_split_once str_startswith].
    rewrite bool_decide_eq_false_2 by done. cbn [andb]. by rewrite IH.
Qed.

Lemma str_split_once_None (sep s : string) :
  str_split_once sep s = None ↔ str_contains sep s = false.
Proof.
  induction s as [|c s IH]; cbn [str_split_once str_contains].
  - destruct (str_startswith sep ""); by rewrite ?orb_false_r.
  - destruct (str_startswith sep (String c s)); [done|]. cbn [orb].
    rewrite <- IH. by destruct (str_split_once sep s) as [[]|].
Qed.

(** What comes before a one-character separator does not contain it. *)
Lemma str_split_once_char (c : ascii) (s a b : string) :
  str_split_once (String c "") s = Some (a, b) →
  s = a +:+ String c b ∧ has_char c a = false.
Proof.
  revert a. induction s as [|c0 s IH]; intros a; cbn [str_split_once str_startswith].
  - done.
  - case_bool_decide as Hc; cbn [andb].
    + subst. intros [= <- <-]. done.
    + destruct (str_split_once (String c "") s) as [[a' b']|]; [|done].
      intros [= <- <-]. destruct (IH a' eq_refl) as [-> Ha].
      split; [done|]. by apply has_char_cons.
Qed.

Lemma rsplit_slash_no_slash (s : string) :
  match rsplit_slash s with
  | Some (d, n) => s = d +:+ "/" +:+ n ∧ has_char "/" n = false
  | None => has_char "/" s = false
  end.
Proof.
  induction s as [|c s IH]; [done|]. cbn [rsplit_slash].
  destruct (rsplit_slash s) as [[d n]|].
  - destruct IH as [-> ?]. done.
  - case_bool_decide as Hc; [by subst|]. by apply has_char_cons.
Qed.

Lemma rsplit_slash_app (d n : string) :
  has_char "/" n = false → rsplit_slash (d +:+ "/" +:+ n) = Some (d, n).
Proof.
  intros Hn. assert (rsplit_slash n = None) as Hnone.
  { pose proof (rsplit_slash_no_slash n) as H.
    destruct (rsplit_slash n) as [[d' n']|]; [|done].
    destruct H as [-> H]. apply has_char_app in Hn as [_ Hn].
    by apply has_char_cons in Hn as [? _]. }
  induction d as [|c d IH].
  - change ("" +:+ "/" +:+ n) with (String "/" n). cbn [rsplit_slash].
    by rewrite Hnone.
  - rewrite str_app_cons. cbn [rsplit_slash]. by rewrite IH.
Qed.

(** ** [hash_part] *)

(** X2: [hash_part] of a store path [dir/hash-name] is [hash], when the hash
    has neither a slash nor a dash and the name has no slash. *)
Theorem hash_part_store_path (dir hash name : string) :
  has_char "/" hash = false → has_char "-" hash = false →
  has_char "/" name = false →
  hash_part (dir +:+ "/" +:+ hash +:+ "-" +:+ name) = hash.
Proof.
  intros Hslash Hdash Hname. unfold hash_part, str_after_last_slash, str_before.
  rewrite rsplit_slash_app.
  - by rewrite (str_split_once_fresh "-" "" hash name).
  - apply has_char_app. split; [done|]. by apply has_char_cons.
Qed.

Lemma hash_part_store_path_witness :
  hash_part "/nix/store/abc123-hello-1.0" = "abc123".
Proof.
  apply (hash_part_store_path "/nix/store" "abc123" "hello-1.0"); reflexivity.
Defined.

(** X3: whatever the path, [hash_part] contains neither a slash nor a dash,
    and [hash_part] of it is itself. *)
Theorem hash_part_no_separator (path : string) :
  has_char "/" (hash_part path) = false ∧
  has_char "-" (hash_part path) = false ∧
  hash_part (hash_part path) = hash_part path.
Proof.
  assert (∀ p, has_char "/" (hash_part p) = false ∧
               has_char "-" (hash_part p) = false) as Hno.
  { intros p. unfold hash_part, str_after_last_slash, str_before.
    pose proof (rsplit_slash_no_slash p) as Hs.
    assert (∃ n, match rsplit_slash p with Some (_, n) => n | None => p end = n ∧
                 has_char "/" n = false) as (n & -> & Hn).
    { destruct (rsplit_slash p) as [[d n]|]; [|by eauto]. exists n. by destruct Hs. }
    destruct (str_split_once "-" n) as [[a b]|] eqn:Hsplit.
    - apply str_split_once_char in Hsplit as [-> Ha].
      split; [|done]. by apply has_char_app in Hn as [? _].
    - split; [done|]. by apply str_split_once_None. }
  destruct (Hno path) as [Hslash Hdash]. split; [done|]. split; [done|].
  unfold hash_part at 1, str_after_last_slash, str_before.
  pose proof (rsplit_slash_no_slash (hash_part path)) as Hs.
  destruct (rsplit_slash (hash_part path)) as [[d n]|].
  - destruct Hs as [Heq _]. rewrite Heq in Hslash.
    apply has_char_app in Hslash as [_ Hslash]. done.
  - apply str_split_once_None in Hdash. unfold has_char in Hdash.
    by rewrite Hdash.
Qed.

(** ** [parse_narinfo] *)








(** X5: [parse_narinfo] raises exactly when some line lacks [": "]; the
    lines before it are of no help, and what was parsed is lost. *)
Theorem parse_narinfo_lines_fails (lines : list string)
    (res : gmap string string) :
  (∃ e, parse_narinfo_lines lines res = Raise e) ↔
  ∃ line, line ∈ lines ∧ str_contains ": " line = false.
Proof.
  revert res. induction lines as [|line lines IH]; intros res.
  - split; [by intros [e ?]|]. intros (line & Hin & _). by apply elem_of_nil in Hin.
  - cbn [parse_narinfo_lines].
    destruct (str_split_once ": " line) as [[k v]|] eqn:Hsplit.
    + rewrite IH. split.
      * intros (l & Hin & Hl). exists l. split; [by right|done].
      * intros (l & Hin & Hl). apply elem_of_cons in Hin as [->|Hin]; [|by eauto].
        apply str_split_once_None in Hl. congruence.
    + split; [|by eauto]. intros _. exists line. split; [by left|].
      by apply str_split_once_None.
Qed.

Lemma str_rev_app_acc (s c : string) :
  String.rev_app s c = String.rev_app s "" +:+ c.
Proof.
  revert c. induction s as [|a s IH]; intros c; [done|].
  cbn [String.rev_app]. rewrite (IH (String a c)), (IH (String a "")).
  by rewrite str_app_assoc.
Qed.

Lemma str_rev_app_app (a b c : string) :
  String.rev_app (a +:+ b) c = String.rev_app b (String.rev_app a c).
Proof.
  revert c. induction a as [|x a IH]; intros c; [done|].
  rewrite str_app_cons. cbn [String.rev_app]. by rewrite IH.
Qed.

Lemma str_rev_app (a b : string) :
  String.rev (a +:+ b) = String.rev b +:+ String.rev a.
Proof.
  unfold String.rev. by rewrite str_rev_app_app, str_rev_app_acc.
Qed.

Lemma str_endswith_app (p x : string) : str_endswith p (x +:+ p) = true.
Proof.
  unfold str_endswith. rewrite str_rev_app. apply str_startswith_spec. eauto.
Qed.

(** X6: the name given to a record when it is scheduled, [{hash}.narinfo]
    (line 362), is read back by the sweep (lines 494-499) as that hash: for a
    hash without a dot or a slash, the record [store/{hash}.narinfo] is
    counted as unreachable exactly when the hash is not in the closure. *)
Theorem narinfo_name_roundtrip (closure : gset string) (hash : string) :
  has_char "." hash = false → has_char "/" hash = false →
  str_before ".narinfo" (str_after_last_slash (STORE_DIR +:+ "/" +:+ hash +:+ ".narinfo"))
    = hash ∧
  unreachable closure (STORE_DIR +:+ "/" +:+ hash +:+ ".narinfo")
    = negb (bool_decide (hash ∈ closure)).
Proof.
  intros Hdot Hslash.
  assert (str_after_last_slash (STORE_DIR +:+ "/" +:+ hash +:+ ".narinfo")
          = hash +:+ ".narinfo") as Hname.
  { unfold str_after_last_slash. rewrite rsplit_slash_app; [done|].
    apply has_char_app. by split. }
  assert (str_before ".narinfo" (hash +:+ ".narinfo") = hash) as Hhash.
  { unfold str_before. rewrite <- (str_app_nil_r (hash +:+ ".narinfo")), str_app_assoc.
    by rewrite (str_split_once_fresh "." "narinfo" hash ""). }
  unfold unreachable. rewrite Hname, Hhash, str_endswith_app. done.
Qed.

Lemma narinfo_name_roundtrip_witness :
  unreachable ∅ (STORE_DIR +:+ "/" +:+ "abc123" +:+ ".narinfo") = true.
Proof.
  rewrite (proj2 (narinfo_name_roundtrip ∅ "abc123" eq_refl eq_refl)).
  reflexivity.
Defined.

(** ** More on the fetcher *)

(** The retry loop makes at least one request and at most one more than the
    retries left. *)
Lemma download_loop_requests (ext : Extern) (url tmp : string) :
  ∀ (bound : nat) (retry : Retry) (w w' : World) (r : outcome unit),
    download_loop ext bound url tmp retry w = Some (w', r) →
    (requests w < requests w' ≤ requests w + S (Z.to_nat (total retry)))%nat.
Proof.
  induction bound as [|bound IH]; intros retry w w' r; [done|].
  cbn [download_loop].
  destruct (http_get_spec ext url true w) as (w1 & r1 & Hget & _ & Hreq1 & _ & _).
  destruct r1 as [res|e];
    [|rewrite (bind_raise _ _ _ _ _ Hget); intros [= <- <-]; lia].
  rewrite (bind_ok _ _ _ _ _ Hget). unfold raise_for_status.
  case_bool_decide as Hstatus.
  { rewrite (bind_raise _ _ w1 w1 (HTTPError (status_code res))) by done.
    intros [= <- <-]. lia. }
  rewrite (bind_ok _ _ w1 w1 tt) by done.
  destruct (stream_to_spec tmp res w1)
    as (w2 & r2 & es2 & Hs & _ & _ & _ & Hreq2 & _).
  pose proof (try_stream_to _ _ _ _ _ Hs) as Htry.
  destruct r2 as [[]|e].
  - rewrite (bind_ok _ _ _ _ _ Htry). intros [= <- <-]. lia.
  - destruct (retriable e).
    + rewrite (bind_ok _ _ _ _ _ Htry). unfold lift, increment.
      destruct (total retry - 1 <? 0) eqn:Hex.
      * rewrite (bind_raise _ _ w2 w2 (MaxRetryError e)) by done.
        intros [= <- <-]. lia.
      * rewrite (bind_ok _ _ w2 w2 (Some {| total := total retry - 1 |})) by done.
        intros Hloop. apply IH in Hloop. cbn [total] in Hloop.
        apply Z.ltb_ge in Hex. lia.
    + rewrite (bind_raise _ _ _ _ _ Htry). intros [= <- <-]. lia.
Qed.

(** X7: whatever the server does, a download returns, makes at least one
    and at most six requests (the first attempt and the five retries of
    [Retry(total=5)]), leaves the [failure] flag as it was, and changes the
    destination only when it ends normally. *)
Theorem download_bounded (ext : Extern) (url dest : string) (w : World) :
  ∃ w' r,
    download ext url dest w = Some (w', r) ∧
    (requests w < requests w' ≤ requests w + 6)%nat ∧
    failure w' = failure w ∧
    (∀ e, r = Raise e → files (fs w') !! dest = files (fs w) !! dest).
Proof.
  destruct (download_spec ext url dest w)
    as (w' & r & es & Hd & Hst & Hf & _ & _ & _ & Hobs).
  exists w', r. split; [done|]. split; [|split; [done|]].
  - unfold download, mkdir in Hd.
    destruct (emit_spec (EvMkdir (path_parent dest)) w) as (w1 & Hmk & _ & _ & Hreq1).
    rewrite (bind_ok _ _ _ _ _ Hmk) in Hd.
    apply bind_Some in Hd as (w2 & o & Hloop & Hrest).
    apply download_loop_requests in Hloop. cbn in Hloop.
    destruct o as [[]|e].
    + unfold rename in Hrest.
      destruct (bool_decide _ || bool_decide _); [|injection Hrest as <- _; lia].
      injection Hrest as <- _. cbn. lia.
    + destruct Hrest as [-> _]. lia.
  - intros e ->. destruct (Hobs es) as [Hsame|(_ & ? & _)]; [done| |done].
    destruct Hst as (_ & -> & _). done.
Qed.



(** ** More on the release publisher *)

(** X9: when the staged symlink of a channel already points at the release
    that upstream resolves to (and the live one does not), the loop body of
    [clone_channels] issues no HTTP request and changes no file or symlink,
    and appends the channel to the channels to update: the release staged by
    an earlier run is taken up again. *)
Theorem staged_channel_is_resumed (cfg : Config) (ext : Extern)
    (channel chan_location : string) (chan_updated : Z)
    (rest : list (string * Z)) (acc : list string) (w : World) :
  CLONE_SINCE ≤ chan_updated →
  redirect_location ext channel = Ok chan_location →
  links (fs w) !! channel ≠ Some (release_target_of channel chan_location) →
  links (fs w) !! update_link channel
    = Some (release_target_of channel chan_location) →
  ∃ w',
    clone_channel cfg ext channel chan_updated w = Some (w', Ok true) ∧
    fs w' = fs w ∧ requests w' = requests w ∧ failure w' = failure w ∧
    trace w' = trace w ++ [EvGetObject channel] ∧
    clone_loop cfg ext ((channel, chan_updated) :: rest) acc w
      = clone_loop cfg ext rest (acc ++ [channel]) w'.
Proof.
  intros Hnew Hloc Hlive Hstaged.
  assert (∃ w', clone_channel cfg ext channel chan_updated w = Some (w', Ok true) ∧
                fs w' = fs w ∧ requests w' = requests w ∧ failure w' = failure w ∧
                trace w' = trace w ++ [EvGetObject channel])
    as (w' & Hc & Hw).
  { unfold clone_channel. rewrite (proj2 (Z.ltb_ge _ _) Hnew).
    eexists. split.
    - unfold bind, emit, lift, get_world. rewrite Hloc. cbn [fs apply_event].
      rewrite (bool_decide_eq_false_2 _ Hlive).
      rewrite (bool_decide_eq_true_2 _ Hstaged). reflexivity.
    - cbn. auto. }
  exists w'. split; [done|]. destruct Hw as (? & ? & ? & ?).
  repeat split; try done. simpl. unfold bind at 1. by rewrite Hc.
Qed.

Lemma staged_channel_is_resumed_witness :
  ∃ w',
    clone_channel demo_cfg (demo_ext (λ _ _, serve_ok "") 0) demo_channel
      (datetime_utc 2024 5 1) (start staged_fs) = Some (w', Ok true) ∧
    fs w' = staged_fs ∧ requests w' = 0%nat.
Proof.
  destruct (staged_channel_is_resumed demo_cfg (demo_ext (λ _ _, serve_ok "") 0)
              demo_channel "https://releases.nixos.org/nixos/r1"
              (datetime_utc 2024 5 1) [] [] (start staged_fs))
    as (w' & Hc & Hfs & Hreq & _);
    [vm_compute; discriminate | reflexivity | vm_compute; discriminate
    | vm_compute; reflexivity |].
  exists w'. split; [exact Hc|]. split; [exact Hfs|exact Hreq].
Defined.

(** X10: a release page that is not found (status 404), or whose tagline
    does not match [Released on ... from], makes the loop body skip the
    channel: after the one request for the page, no file or symlink is
    changed, the [failure] flag is left alone, no exception is raised and
    the channel is not appended to the channels to update. *)
Theorem missing_or_malformed_page_is_skipped (cfg : Config) (ext : Extern)
    (channel chan_location : string) (chan_updated : Z) (res : response)
    (w : World) :
  CLONE_SINCE ≤ chan_updated →
  redirect_location ext channel = Ok chan_location →
  links (fs w) !! channel ≠ Some (release_target_of channel chan_location) →
  links (fs w) !! update_link channel
    ≠ Some (release_target_of channel chan_location) →
  http ext (requests w) chan_location = Replied res →
  stream_error res = None →
  status_code res = 404%nat ∨
  (¬ (400 ≤ status_code res < 600)%nat ∧
   tagline_match (pq_tagline ext (response_text res)) = None) →
  ∃ w',
    clone_channel cfg ext channel chan_updated w = Some (w', Ok false) ∧
    fs w' = fs w ∧ requests w' = S (requests w) ∧ failure w' = failure w ∧
    trace w' = trace w ++ [EvGetObject channel; EvHttpGet chan_location].
Proof.
  intros Hnew Hloc Hlive Hstaged Hrep Herr Hskip.
  unfold clone_channel. rewrite (proj2 (Z.ltb_ge _ _) Hnew).
  erewrite (bind_ok (emit _)) by reflexivity.
  erewrite (bind_ok (lift _)) by (unfold lift; rewrite Hloc; reflexivity).
  erewrite (bind_ok get_world) by reflexivity. cbn [fs apply_event].
  rewrite (bool_decide_eq_false_2 _ Hlive), (bool_decide_eq_false_2 _ Hstaged).
  erewrite (bind_ok (http_get _ _ _)).
  2:{ unfold http_get, bind, count_request, emit. cbn [requests].
      rewrite Hrep, Herr. reflexivity. }
  destruct Hskip as [H404|[Hstatus Htag]].
  - rewrite (bool_decide_eq_true_2 _ H404). eexists. split; [reflexivity|].
    cbn. rewrite <- app_assoc. done.
  - assert (status_code res ≠ 404%nat) as H404 by lia.
    rewrite (bool_decide_eq_false_2 _ H404).
    erewrite (bind_ok (raise_for_status _)).
    2:{ unfold raise_for_status. rewrite (bool_decide_eq_false_2 _ Hstatus).
        reflexivity. }
    rewrite Htag. eexists. split; [reflexivity|].
    cbn. rewrite <- app_assoc. done.
Qed.

Lemma missing_or_malformed_page_is_skipped_witness :
  ∃ w',
    clone_channel demo_cfg (demo_ext serve_no_tagline 0) demo_channel
      (datetime_utc 2024 5 1) (start empty_fs) = Some (w', Ok false) ∧
    fs w' = empty_fs ∧ failure w' = false.
Proof.
  edestruct (λ res, missing_or_malformed_page_is_skipped demo_cfg
               (demo_ext serve_no_tagline 0) demo_channel
               "https://releases.nixos.org/nixos/r1" (datetime_utc 2024 5 1)
               res (start empty_fs))
    as (w' & Hc & Hfs & _ & Hf & _);
    [vm_compute; discriminate | reflexivity | vm_compute; discriminate
    | vm_compute; discriminate | reflexivity | reflexivity
    | right; split; [vm_compute; lia | vm_compute; reflexivity] |].
  exists w'. split; [exact Hc|]. split; [exact Hfs|exact Hf].
Defined.

(** X11: a row of the release page is skipped without any request or change
    when its file is an image ([.ova] or [.iso]), or when a file of that name
    is already in the release directory with the listed digest. *)
Theorem clone_row_skips (ext : Extern) (chan_location release_path : string)
    (file_name file_size file_hash : string) (w : World) :
  str_endswith ".ova" file_name = true ∨ str_endswith ".iso" file_name = true ∨
  (links (fs w) !! (release_path +:+ "/" +:+ file_name) = None ∧
   ∃ contents,
     files (fs w) !! (release_path +:+ "/" +:+ file_name) = Some contents ∧
     sha256_hex ext contents = file_hash) →
  clone_row ext chan_location release_path [file_name; file_size; file_hash] w
  = Some (w, Ok false).
Proof.
  intros Hskip. unfold clone_row.
  destruct (str_endswith ".ova" file_name) eqn:Hova; [done|].
  destruct (str_endswith ".iso" file_name) eqn:Hiso; [done|]. cbn [orb].
  destruct Hskip as [?|[?|(Hlink & contents & Hfile & Hhash)]]; [done..|].
  rewrite (bind_ok _ _ w w w) by done.
  unfold path_exists. rewrite Hlink, Hfile.
  rewrite bool_decide_eq_true_2 by eauto. cbn [orb].
  assert (file_sha256 ext (release_path +:+ "/" +:+ file_name) w
          = Some (w, Ok file_hash)) as Hsha.
  { unfold file_sha256.
    rewrite (bind_ok _ _ w w contents) by (unfold read_text; by rewrite Hfile).
    by rewrite Hhash. }
  rewrite (bind_ok _ _ w w true); [done|].
  rewrite (bind_ok _ _ _ _ _ Hsha). unfold ret.
  by rewrite bool_decide_eq_true_2.
Qed.

Lemma clone_row_skips_witness :
  clone_row (demo_ext (λ _ _, serve_ok "abd") 0)
    "https://releases.nixos.org/nixos/r1" demo_target ["a.txt"; "3"; "abc"]
    (start resumed_fs) = Some (start resumed_fs, Ok false).
Proof.
  apply clone_row_skips. right. right. split; [vm_compute; reflexivity|].
  exists "abc". split; [vm_compute; reflexivity|reflexivity].
Defined.

(** ** The job list *)

Lemma jobs_inv_empty : jobs_inv [] ∅.
Proof.
  split; [done|]. split.
  - intros name. split; [set_solver|]. intros (job & Hjob & _).
    by apply elem_of_nil in Hjob.
  - intros pre job post Heq. by destruct pre.
Qed.

Lemma add_info_inv (todo : list (list string)) (seen_paths : gset string)
    (info : string * string) :
  jobs_inv todo seen_paths →
  jobs_inv (add_info (todo, seen_paths) info).1 (add_info (todo, seen_paths) info).2 ∧
  info.2 ∈ (add_info (todo, seen_paths) info).2 ∧
  hash_part info.1 +:+ ".narinfo" ∈ (add_info (todo, seen_paths) info).2 ∧
  seen_paths ⊆ (add_info (todo, seen_paths) info).2.
Proof.
  intros (Hne & Hseen & Hdisj). destruct info as [path url]. unfold add_info.
  set (one_todo := List.filter (λ name, negb (bool_decide (name ∈ seen_paths)))
                               [url; hash_part path +:+ ".narinfo"]).
  assert (∀ name, name ∈ one_todo ↔
                  (name = url ∨ name = hash_part path +:+ ".narinfo") ∧
                  name ∉ seen_paths) as Hone.
  { intros name. unfold one_todo. rewrite list_elem_of_In, filter_In.
    rewrite negb_true_iff, bool_decide_eq_false. cbn [In]. naive_solver. }
  assert (∀ name, name ∈ (list_to_set one_todo ∪ seen_paths : gset string) ↔
                  name ∈ one_todo ∨ name ∈ seen_paths) as Hseen'.
  { intros name. rewrite elem_of_union, elem_of_list_to_set. done. }
  assert (url ∈ (list_to_set one_todo ∪ seen_paths : gset string) ∧
          hash_part path +:+ ".narinfo"
            ∈ (list_to_set one_todo ∪ seen_paths : gset string) ∧
          seen_paths ⊆ (list_to_set one_todo ∪ seen_paths : gset string)) as Hcov.
  { split; [|split]; [| |set_solver].
    - apply Hseen'. destruct (decide (url ∈ seen_paths)); [by right|].
      left. apply Hone. auto.
    - apply Hseen'.
      destruct (decide (hash_part path +:+ ".narinfo" ∈ seen_paths)); [by right|].
      left. apply Hone. auto. }
  destruct one_todo as [|first more] eqn:Hjob.
  - cbn [fst snd]. split; [|exact Hcov]. split; [done|]. split; [|done].
    intros name. rewrite Hseen', Hseen. split; [|by auto].
    intros [Hin|?]; [|done]. by apply elem_of_nil in Hin.
  - cbn [fst snd]. split; [|exact Hcov]. split; [|split].
    + apply Forall_app. split; [done|]. by repeat constructor.
    + intros name. rewrite Hseen', Hseen. split.
      * intros [Hin|(job & Hjobin & Hname)].
        -- exists (first :: more). split; [|done].
           apply elem_of_app. right. by left.
        -- exists job. split; [|done]. apply elem_of_app. by left.
      * intros (job & Hjobin & Hname).
        apply elem_of_app in Hjobin as [Hjobin|Hjobin]; [right; eauto|].
        apply list_elem_of_singleton in Hjobin as ->. by left.
    + intros pre job post Heq name earlier Hname Hearlier.
      destruct (decide (post = [])) as [->|Hpost].
      * apply app_inj_tail in Heq as [<- <-]. apply Hone in Hname as [_ Hfresh].
        intros Hin. apply Hfresh, Hseen. eauto.
      * destruct (exists_last Hpost) as (post' & y & ->).
        rewrite app_comm_cons, app_assoc in Heq.
        apply app_inj_tail in Heq as [-> _]. by eapply Hdisj.
Qed.

Lemma foldl_add_info_inv (infos : list (string * string)) :
  ∀ todo seen_paths,
    jobs_inv todo seen_paths →
    jobs_inv (foldl add_info (todo, seen_paths) infos).1
             (foldl add_info (todo, seen_paths) infos).2 ∧
    seen_paths ⊆ (foldl add_info (todo, seen_paths) infos).2 ∧
    ∀ info, info ∈ infos →
      info.2 ∈ (foldl add_info (todo, seen_paths) infos).2 ∧
      hash_part info.1 +:+ ".narinfo" ∈ (foldl add_info (todo, seen_paths) infos).2.
Proof.
  induction infos as [|info infos IH]; intros todo seen_paths Hinv.
  - split; [done|]. split; [done|]. intros info Hin. by apply elem_of_nil in Hin.
  - cbn [foldl].
    destruct (add_info_inv todo seen_paths info Hinv) as (Hinv1 & Hurl & Hnar & Hsub).
    destruct (add_info (todo, seen_paths) info) as [todo1 seen1]. cbn [fst snd] in *.
    destruct (IH todo1 seen1 Hinv1) as (Hinv' & Hsub' & Hcov).
    split; [done|]. split; [set_solver|].
    intros info' [->|Hin]%elem_of_cons; [|by apply Hcov].
    split; by apply Hsub'.
Qed.

(** X12: the job list of a channel (lines 356-367).  When the loop over the
    batches runs to its end, no job of [todo] is empty, no file name occurs
    in two different jobs, and for every record the oracle returned, both
    its [url] and its [{hash}.narinfo] are in some job. *)
Theorem jobs_are_disjoint_and_cover (ext : Extern) (upstream_binary_cache : string)
    (batches : list (list string)) (todo : list (list string))
    (w w' : World) :
  expand_batches ext upstream_binary_cache batches [] ∅ w
    = Some (w', Ok (Some todo)) →
  Forall (λ job, job ≠ []) todo ∧
  (∀ pre job post, todo = pre ++ job :: post →
     ∀ name earlier, name ∈ job → earlier ∈ pre → name ∉ earlier) ∧
  ∀ batch info,
    batch ∈ batches → info ∈ (path_info_json ext upstream_binary_cache batch).2 →
    (∃ job, job ∈ todo ∧ info.2 ∈ job) ∧
    (∃ job, job ∈ todo ∧ hash_part info.1 +:+ ".narinfo" ∈ job).
Proof.
  assert (∀ (todo0 : list (list string)) (seen0 : gset string) (w0 : World),
            jobs_inv todo0 seen0 →
            expand_batches ext upstream_binary_cache batches todo0 seen0 w0
              = Some (w', Ok (Some todo)) →
            ∃ seen, jobs_inv todo seen ∧ seen0 ⊆ seen ∧
              ∀ batch info, batch ∈ batches →
                info ∈ (path_info_json ext upstream_binary_cache batch).2 →
                info.2 ∈ seen ∧ hash_part info.1 +:+ ".narinfo" ∈ seen) as Hgen.
  { induction batches as [|batch rest IH]; intros todo0 seen0 w0 Hinv Hrun.
    - injection Hrun as _ <-. exists seen0. split; [done|]. split; [done|].
      intros batch info Hin. by apply elem_of_nil in Hin.
    - cbn [expand_batches] in Hrun.
      erewrite (bind_ok (emit _)) in Hrun by reflexivity.
      destruct (path_info_json ext upstream_binary_cache batch) as [rc infos] eqn:Hrc.
      case_bool_decide; [done|].
      destruct (foldl_add_info_inv infos todo0 seen0 Hinv) as (Hinv1 & Hsub1 & Hcov1).
      destruct (foldl add_info (todo0, seen0) infos) as [todo1 seen1].
      cbn [fst snd] in *.
      destruct (IH todo1 seen1 _ Hinv1 Hrun) as (seen & Hinv' & Hsub & Hcov).
      exists seen. split; [done|]. split; [set_solver|].
      intros batch' info [->|Hin]%elem_of_cons Hinfo; [|by eapply Hcov].
      rewrite Hrc in Hinfo. cbn [snd] in Hinfo.
      destruct (Hcov1 info Hinfo). split; by apply Hsub. }
  intros Hrun.
  destruct (Hgen [] ∅ w jobs_inv_empty Hrun) as (seen & (Hne & Hseen & Hdisj) & _ & Hcov).
  split; [done|]. split; [done|]. intros batch info Hbatch Hinfo.
  destruct (Hcov batch info Hbatch Hinfo) as [Hurl Hnar].
  split; by apply Hseen.
Qed.

Lemma jobs_are_disjoint_and_cover_witness :
  ∃ todo w',
    expand_batches (demo_ext (λ _ _, serve_ok "") 0) "https://cache.nixos.org"
      [["/nix/store/abc123-hello-1.0"]; ["/nix/store/abc123-hello-1.0"]] [] ∅
      (start empty_fs) = Some (w', Ok (Some todo)) ∧
    Forall (λ job, job ≠ []) todo ∧ length todo = 1%nat.
Proof.
  eexists _, _. split; [vm_compute; reflexivity|].
  split; [|reflexivity].
  refine (proj1 (jobs_are_disjoint_and_cover (demo_ext (λ _ _, serve_ok "") 0)
            "https://cache.nixos.org"
            [["/nix/store/abc123-hello-1.0"]; ["/nix/store/abc123-hello-1.0"]]
            _ (start empty_fs) _ _)).
  vm_compute. reflexivity.
Defined.

(** ** The sweep: what it leaves alone *)





(** ** Computations that stay off the network and off the flag *)

Lemma offline_ret {A} (a : A) : offline (ret a).
Proof. intros w. by exists w, (Ok a). Qed.

Lemma offline_raise {A} (e : exn) : offline (@raise A e).
Proof. intros w. by exists w, (Raise e). Qed.

Lemma offline_lift {A} (o : outcome A) : offline (lift o).
Proof. intros w. by exists w, o. Qed.

Lemma offline_get_world : offline get_world.
Proof. intros w. by exists w, (Ok w). Qed.

Lemma offline_emit (e : event) : offline (emit e).
Proof. intros w. eexists _, _. split; [reflexivity|]. by cbn. Qed.

Lemma offline_bind {A B} (c : M A) (k : A → M B) :
  offline c → (∀ a, offline (k a)) → offline (bind c k).
Proof.
  intros Hc Hk w. destruct (Hc w) as (w1 & r & Hrun & Hf & Hr).
  unfold bind. rewrite Hrun. destruct r as [a|e].
  - destruct (Hk a w1) as (w2 & r2 & Hrun2 & Hf2 & Hr2).
    exists w2, r2. split; [done|]. split; congruence.
  - by exists w1, (Raise e).
Qed.

Lemma offline_try_except {A} (c : M A) (handles : exn → bool) (h : exn → M A) :
  offline c → (∀ e, offline (h e)) → offline (try_except c handles h).
Proof.
  intros Hc Hh w. destruct (Hc w) as (w1 & r & Hrun & Hf & Hr).
  unfold try_except. rewrite Hrun. destruct r as [a|e].
  - by exists w1, (Ok a).
  - destruct (handles e); [|by exists w1, (Raise e)].
    destruct (Hh e w1) as (w2 & r2 & Hrun2 & Hf2 & Hr2).
    exists w2, r2. split; [done|]. split; congruence.
Qed.

Lemma offline_for_each {A} (l : list A) (body : A → M unit) :
  (∀ x, offline (body x)) → offline (for_each l body).
Proof.
  intros Hbody. induction l as [|x l IH]; cbn [for_each].
  - apply offline_ret.
  - apply offline_bind; [apply Hbody | by intros _].
Qed.

Lemma offline_read_text (p : string) : offline (read_text p).
Proof.
  intros w. unfold read_text. destruct (files (fs w) !! p); by eexists _, _.
Qed.

Lemma offline_unlink (p : string) : offline (unlink p).
Proof.
  intros w. unfold unlink. case_bool_decide; [by eexists _, _|].
  destruct (_ || _); [apply offline_emit | by eexists _, _].
Qed.

Lemma offline_iterdir (d : string) : offline (iterdir d).
Proof.
  intros w. unfold iterdir. destruct (_ && _); by eexists _, _.
Qed.

Ltac offline_step :=
  first [ apply offline_ret | apply offline_raise | apply offline_lift
        | apply offline_get_world | apply offline_emit | apply offline_read_text
        | apply offline_unlink | apply offline_iterdir
        | apply offline_bind; [|intros ?]
        | apply offline_try_except; [|intros ?]
        | apply offline_for_each; intros ?
        | match goal with
          | |- offline (if ?b then _ else _) => destruct b
          | |- offline (match ?x with _ => _ end) => destruct x
          end ].

Lemma offline_gc_alive (ext : Extern) (time_threshold : Z) (releases : list string) :
  offline (gc_alive ext time_threshold releases).
Proof.
  unfold gc_alive. apply offline_bind; [|intros ?; apply offline_ret].
  generalize {| last_updated := ∅; latest := ∅; alive := ∅ |}.
  induction releases as [|release rest IH]; intros st; cbn [gc_scan].
  - apply offline_ret.
  - apply offline_bind; [|by intros ?].
    unfold gc_visit. repeat offline_step.
Qed.

Lemma offline_gc_closure (cfg : Config) (ext : Extern) (releases : list string) :
  ∀ closure, offline (gc_closure cfg ext releases closure).
Proof.
  induction releases as [|release rest IH]; intros closure; cbn [gc_closure].
  - apply offline_ret.
  - apply offline_bind; [unfold read_store_paths; repeat offline_step|intros paths].
    apply offline_bind; [apply offline_lift|intros batches].
    apply offline_bind; [|by intros ?].
    clear. revert closure.
    induction batches as [|batch more IH]; intros closure; cbn [gc_closure_batches].
    + apply offline_ret.
    + apply offline_bind; [apply offline_emit|intros _].
      apply offline_bind; [apply offline_get_world|by intros ?].
Qed.

Lemma offline_gc_sweep (cfg : Config) (closure : gset string) (entries : list string) :
  ∀ deleted, offline (gc_sweep cfg closure entries deleted).
Proof.
  induction entries as [|path rest IH]; intros deleted; cbn [gc_sweep].
  - apply offline_ret.
  - apply offline_bind; [|by intros ?].
    unfold gc_sweep_entry, try_pass, dict_get. repeat offline_step.
Qed.

Lemma offline_garbage_collect (cfg : Config) (ext : Extern) :
  offline (garbage_collect cfg ext).
Proof.
  unfold garbage_collect.
  apply offline_bind; [apply offline_iterdir|intros releases].
  apply offline_bind; [apply offline_gc_alive|intros alive].
  apply offline_bind; [apply offline_gc_closure|intros closure].
  apply offline_bind.
  { destruct (SAVE_STATS cfg); [|apply offline_ret].
    unfold save_closure_stats, write_text. repeat offline_step. }
  intros _. apply offline_bind; [apply offline_iterdir|intros entries].
  apply offline_gc_sweep.
Qed.

(** X14: garbage collection is local and silent about failures (lines
    422-517).  From every state [garbage_collect] ends, normally or by an
    exception; it issues no HTTP request, and it never changes the global
    [failure]: whatever goes wrong in it can reach the exit status only as an
    exception that leaves the function. *)
Theorem garbage_collect_keeps_flag (cfg : Config) (ext : Extern) (w : World) :
  ∃ w' r, garbage_collect cfg ext w = Some (w', r) ∧
          failure w' = failure w ∧ requests w' = requests w.
Proof. exact (offline_garbage_collect cfg ext w). Qed.

(** The part of the main program after the [try] statement, lines 530-534. *)
Lemma main_tail (cfg : Config) (ext : Extern) (w1 : World) :
  ∃ w2 r,
    (if COLLECT_GARBAGE cfg
     then (do garbage_collect cfg ext then ret tt) else ret tt) w1 = Some (w2, r) ∧
    failure w2 = failure w1 ∧
    (if COLLECT_GARBAGE cfg
     then match r with
          | Ok _ => ∃ deleted, garbage_collect cfg ext w1 = Some (w2, Ok deleted)
          | Raise e => garbage_collect cfg ext w1 = Some (w2, Raise e)
          end
     else w2 = w1 ∧ r = Ok tt).
Proof.
  destruct (COLLECT_GARBAGE cfg).
  - destruct (offline_garbage_collect cfg ext w1) as (w2 & r & Hgc & Hf & _).
    unfold bind. rewrite Hgc. destruct r as [deleted|e].
    + exists w2, (Ok tt). split; [done|]. split; [done|]. by exists deleted.
    + by exists w2, (Raise e).
  - by exists w1, (Ok tt).
Qed.

(** X15: the exit status of the program (lines 520-534).  When the program
    ends, its status is 0 or 1, and it is 0 exactly when the synchronisation
    ([clone_channels] then [update_channels]) ended without an exception and
    with [failure] unset, and garbage collection, if enabled, ended without
    an exception; the final state is then the one garbage collection left.
    In particular an exception that leaves the synchronisation gives status
    1, after garbage collection has run. *)
Theorem main_exit_status (cfg : Config) (ext : Extern) (w w' : World) (code : Z) :
  main cfg ext w = Some (w', code) →
  (code = 0 ∨ code = 1) ∧
  (code = 0 ↔
   ∃ w1,
     (let* channels := clone_channels cfg ext in
      update_channels cfg ext channels) w = Some (w1, Ok tt) ∧
     failure w1 = false ∧
     if COLLECT_GARBAGE cfg
     then ∃ deleted, garbage_collect cfg ext w1 = Some (w', Ok deleted)
     else w' = w1).
Proof.
  unfold main, try_except.
  destruct ((let* channels := clone_channels cfg ext in
             update_channels cfg ext channels) w) as [[w1 [[]|e]]|] eqn:Hsync;
    [| |done]; cbv beta iota.
  - destruct (main_tail cfg ext w1) as (w2 & r & -> & Hf & Hgc).
    destruct r as [[]|e].
    + intros [= <- <-]. rewrite Hf. destruct (failure w1) eqn:Hf1.
      * split; [by right|]. split; [done|].
        intros (w1' & [= <-] & Hfalse & _). congruence.
      * split; [by left|]. split; [|done]. intros _.
        exists w1. split; [done|]. split; [done|].
        destruct (COLLECT_GARBAGE cfg); [done|]. by destruct Hgc.
    + intros [= <- <-]. split; [by right|]. split; [done|].
      intros (w1' & [= <-] & _ & Hok).
      destruct (COLLECT_GARBAGE cfg); [|by destruct Hgc].
      destruct Hok as [deleted Hok]. congruence.
  - intros Hmain. assert (code = 1) as ->.
    { revert Hmain. unfold set_failure.
      match goal with
      | |- context [(if COLLECT_GARBAGE cfg then _ else _) ?w2] =>
          destruct (main_tail cfg ext w2) as (w3 & r & -> & Hf & _)
      end.
      destruct r as [[]|e']; [|by intros [= _ <-]].
      rewrite Hf. cbn. by intros [= _ <-]. }
    split; [by right|]. split; [done|]. by intros (w1' & [=] & _).
Qed.

Lemma main_exit_status_witness :
  ∃ w' w1,
    main demo_cfg (demo_ext (λ _ _, serve_ok cache_info_30) 1) (start staged_fs)
      = Some (w', 0) ∧
    (let* channels := clone_channels demo_cfg
                        (demo_ext (λ _ _, serve_ok cache_info_30) 1) in
     update_channels demo_cfg (demo_ext (λ _ _, serve_ok cache_info_30) 1) channels)
      (start staged_fs) = Some (w1, Ok tt) ∧
    failure w1 = false.
Proof.
  eexists. 
  assert (main demo_cfg (demo_ext (λ _ _, serve_ok cache_info_30) 1) (start staged_fs)
          = Some (?[w'], 0)) as Hmain by (vm_compute; reflexivity).
  destruct (proj1 (proj2 (main_exit_status _ _ _ _ _ Hmain)) eq_refl)
    as (w1 & Hsync & Hf & _).
  exists w1. split; [exact Hmain|]. split; [exact Hsync|exact Hf].
Defined.

(** ** Writing a file through a temporary *)


(** ** The mirroring jobs and the flag *)

Lemma offline_keeps_flag {A} (c : M A) : offline c → keeps_flag c.
Proof. intros Hc w. destruct (Hc w) as (w' & r & ? & ? & _). by exists w', r. Qed.

Lemma keeps_flag_bind {A B} (c : M A) (k : A → M B) :
  keeps_flag c → (∀ a, keeps_flag (k a)) → keeps_flag (bind c k).
Proof.
  intros Hc Hk w. destruct (Hc w) as (w1 & r & Hrun & Hf).
  unfold bind. rewrite Hrun. destruct r as [a|e].
  - destruct (Hk a w1) as (w2 & r2 & Hrun2 & Hf2).
    exists w2, r2. split; [done|]. congruence.
  - by exists w1, (Raise e).
Qed.

Lemma keeps_flag_download (ext : Extern) (url dest : string) :
  keeps_flag (download ext url dest).
Proof.
  intros w. destruct (download_spec ext url dest w) as (w' & r & es & Hrun & _ & Hf & _).
  by exists w', r.
Qed.

Lemma offline_rename (src dst : string) : offline (rename src dst).
Proof.
  intros w. unfold rename. destruct (_ || _); [apply offline_emit|by eexists _, _].
Qed.

(** The loop of [try_mirror], lines 387-392. *)
Lemma try_mirror_loop (ext : Extern) (upstream_binary_cache : string)
    (paths : list string) :
  ∀ w, ∃ w' r,
    for_each paths (λ path,
      let* w := get_world in
      if path_exists (STORE_DIR +:+ "/" +:+ path) w then ret tt
      else download ext (upstream_binary_cache +:+ "/" +:+ path)
                    (STORE_DIR +:+ "/" +:+ path)) w
      = Some (w', r) ∧
    failure w' = failure w ∧
    ((∀ path, path ∈ paths → path_exists (STORE_DIR +:+ "/" +:+ path) w = true) →
     w' = w ∧ r = Ok tt).
Proof.
  induction paths as [|path rest IH]; intros w; cbn [for_each].
  - exists w, (Ok tt). by conjs.
  - unfold bind at 1. unfold bind at 1. unfold get_world at 1.
    destruct (path_exists (STORE_DIR +:+ "/" +:+ path) w) eqn:Hex.
    + destruct (IH w) as (w' & r & Hrun & Hf & Hnoop).
      exists w', r. split; [exact Hrun|]. split; [done|].
      intros Hall. apply Hnoop. intros p Hp. apply Hall. by right.
    + destruct (keeps_flag_download ext (upstream_binary_cache +:+ "/" +:+ path)
                  (STORE_DIR +:+ "/" +:+ path) w) as (w1 & r1 & Hrun1 & Hf1).
      rewrite Hrun1. destruct r1 as [[]|e].
      * destruct (IH w1) as (w' & r & Hrun & Hf & _).
        exists w', r. split; [exact Hrun|]. split; [congruence|].
        intros Hall. rewrite Hall in Hex; [done|by left].
      * exists w1, (Raise e). split; [done|]. split; [done|].
        intros Hall. rewrite Hall in Hex; [done|by left].
Qed.

Lemma try_mirror_total (ext : Extern) (upstream_binary_cache : string)
    (paths : list string) (w : World) :
  ∃ w' r,
    try_mirror ext upstream_binary_cache paths w = Some (w', r) ∧
    failure w' = failure w ∧
    (∀ e, r = Raise e → retriable e = false) ∧
    ((∀ path, path ∈ paths → path_exists (STORE_DIR +:+ "/" +:+ path) w = true) →
     w' = w ∧ r = Ok true).
Proof.
  destruct (try_mirror_loop ext upstream_binary_cache paths w)
    as (w' & r & Hrun & Hf & Hnoop).
  unfold try_mirror, try_except. unfold bind at 1. rewrite Hrun. destruct r as [[]|e].
  - exists w', (Ok true). split; [done|]. split; [done|]. split; [done|].
    intros Hall. by destruct (Hnoop Hall) as [-> _].
  - destruct (retriable e) eqn:Hretr.
    + exists w', (Ok false). split; [done|]. split; [done|]. split; [done|].
      intros Hall. by destruct (Hnoop Hall) as [_ ?].
    + exists w', (Raise e). split; [done|]. split; [done|].
      split; [by intros ? [= <-]|].
      intros Hall. by destruct (Hnoop Hall) as [_ ?].
Qed.

(** X17: one mirroring job (lines 383-395).  [try_mirror] always ends; it
    never lets a [ConnectionError] or a [WrongSize] out (they become the
    result [False]) and never changes the [failure] flag; and a job all of
    whose files are already in the store issues no request, changes nothing
    and answers [True]. *)
Theorem try_mirror_contains_retriable (ext : Extern) (upstream_binary_cache : string)
    (paths : list string) (w : World) :
  ∃ w' r,
    try_mirror ext upstream_binary_cache paths w = Some (w', r) ∧
    failure w' = failure w ∧
    (∀ e, r = Raise e → retriable e = false) ∧
    ((∀ path, path ∈ paths → path_exists (STORE_DIR +:+ "/" +:+ path) w = true) →
     w' = w ∧ r = Ok true).
Proof. exact (try_mirror_total ext upstream_binary_cache paths w). Qed.

Lemma keeps_flag_run_jobs (ext : Extern) (upstream_binary_cache : string)
    (todo : list (list string)) :
  keeps_flag (run_jobs ext upstream_binary_cache todo).
Proof.
  induction todo as [|job rest IH]; intros w; cbn [run_jobs].
  - by exists w, (Ok []).
  - destruct (try_mirror_total ext upstream_binary_cache job w)
      as (w1 & r1 & -> & Hf1 & _).
    destruct (IH w1) as (w2 & rs & Hrun & Hf2).
    unfold bind. rewrite Hrun. destruct rs as [rs|e].
    + exists w2, (Ok (r1 :: rs)). split; [done|]. congruence.
    + exists w2, (Raise e). split; [done|]. congruence.
Qed.

Lemma keeps_flag_expand_batches (ext : Extern) (upstream_binary_cache : string)
    (batches : list (list string)) :
  ∀ todo seen_paths,
    keeps_flag (expand_batches ext upstream_binary_cache batches todo seen_paths).
Proof.
  induction batches as [|batch rest IH]; intros todo seen_paths;
    cbn [expand_batches].
  - apply offline_keeps_flag, offline_ret.
  - apply keeps_flag_bind; [apply offline_keeps_flag, offline_emit|intros _].
    destruct (path_info_json ext upstream_binary_cache batch) as [returncode infos].
    case_bool_decide; [apply offline_keeps_flag, offline_ret|].
    destruct (foldl add_info (todo, seen_paths) infos). apply IH.
Qed.

Lemma keeps_flag_update_channel (cfg : Config) (ext : Extern) (channel : string)
    (has_cache_info : bool) :
  keeps_flag (update_channel cfg ext channel has_cache_info).
Proof.
  unfold update_channel.
  apply keeps_flag_bind; [apply offline_keeps_flag, offline_get_world|intros w0].
  apply keeps_flag_bind; [apply offline_keeps_flag, offline_read_text|intros up].
  apply keeps_flag_bind.
  { destruct has_cache_info; [apply offline_keeps_flag, offline_ret|].
    unfold fetch_cache_info.
    apply keeps_flag_bind; [apply keeps_flag_download|intros _].
    apply offline_keeps_flag. unfold write_text. repeat offline_step. }
  intros _.
  apply keeps_flag_bind;
    [apply offline_keeps_flag; unfold read_store_paths; repeat offline_step
    |intros paths].
  apply keeps_flag_bind; [apply offline_keeps_flag, offline_lift|intros batches].
  apply keeps_flag_bind; [apply keeps_flag_expand_batches|intros expanded].
  apply keeps_flag_bind.
  { destruct expanded as [todo|]; [|apply offline_keeps_flag, offline_ret].
    apply keeps_flag_bind.
    { apply offline_keeps_flag. destruct (SAVE_STATS cfg); [|apply offline_ret].
      unfold save_sync_stats, mkdir, write_text. repeat offline_step. }
    intros _. apply keeps_flag_bind.
    { apply offline_keeps_flag. case_bool_decide; [apply offline_raise|apply offline_ret]. }
    intros _. apply keeps_flag_bind; [apply keeps_flag_run_jobs|intros results].
    apply offline_keeps_flag. repeat offline_step. }
  intros channel_failure. apply offline_keeps_flag.
  destruct channel_failure; [apply offline_ret|apply offline_rename].
Qed.

(** X18: [update_channels] and the flag (lines 287-411).  For every list of
    channels and from every state, [update_channels] ends, normally or by an
    exception, and the global [failure] is what it was before the call:
    nothing in the function, nor in [download] which it calls, sets the
    flag, whatever the oracle and the downloads do. *)
Theorem update_channels_keeps_flag (cfg : Config) (ext : Extern)
    (channels : list string) (w : World) :
  ∃ w' r, update_channels cfg ext channels w = Some (w', r) ∧
          failure w' = failure w.
Proof.
  revert w. change (keeps_flag (update_channels cfg ext channels)).
  unfold update_channels. generalize false.
  induction channels as [|channel rest IH]; intros has_cache_info;
    cbn [update_loop].
  - apply offline_keeps_flag, offline_ret.
  - apply keeps_flag_bind; [apply keeps_flag_update_channel|by intros _].
Qed.

(** ** Selecting the channels *)

Lemma dotplus_nonslash_spec (s : string) :
  dotplus_nonslash s = true ↔
  ∃ body c, s = body +:+ String c "" ∧ body ≠ "" ∧
            has_char "010" body = false ∧ c ≠ "/"%char.
Proof.
  induction s as [|c s IH].
  - split; [done|]. intros (body & c & Heq & _). by destruct body.
  - destruct s as [|d s].
    + split; [done|]. intros (body & c' & Heq & Hne & _).
      destruct body as [|b body]; [done|]. rewrite str_app_cons in Heq.
      injection Heq as _ Heq. by destruct body.
    + destruct s as [|e s].
      * change (dotplus_nonslash (String c (String d "")))
          with (negb (bool_decide (c = "010"%char))
                && negb (bool_decide (d = "/"%char))).
        rewrite andb_true_iff, !negb_true_iff, !bool_decide_eq_false. split.
        -- intros [Hc Hd]. exists (String c ""), d. split; [done|].
           split; [done|]. split; [|done]. apply has_char_cons. by split.
        -- intros (body & c' & Heq & Hne & Hlf & Hslash).
           destruct body as [|b body]; [done|]. rewrite str_app_cons in Heq.
           injection Heq as <- Heq. destruct body as [|b' body].
           ++ injection Heq as <-. split; [|done].
              apply has_char_cons in Hlf as [Hlf _]. congruence.
           ++ rewrite str_app_cons in Heq. injection Heq as _ Heq. by destruct body.
      * change (dotplus_nonslash (String c (String d (String e s))))
          with (negb (bool_decide (c = "010"%char))
                && dotplus_nonslash (String d (String e s))).
        rewrite andb_true_iff, negb_true_iff, bool_decide_eq_false, IH. split.
        -- intros (Hc & body & c' & Heq & Hne & Hlf & Hslash).
           exists (String c body), c'. rewrite str_app_cons, <- Heq.
           split; [done|]. split; [done|]. split; [|done].
           apply has_char_cons. by split.
        -- intros (body & c' & Heq & Hne & Hlf & Hslash).
           destruct body as [|b body]; [done|]. rewrite str_app_cons in Heq.
           injection Heq as <- Heq. apply has_char_cons in Hlf as [Hc Hlf].
           split; [congruence|]. exists body, c'. split; [done|].
           split; [|done]. intros ->. by destruct s.
Qed.

(** X19: the pattern of line 159.  A name passes
    [re.fullmatch(r'(nixos|nixpkgs)-.+[^/]', name)] exactly when it is
    [nixos-] or [nixpkgs-], then a non-empty text without a line feed, then
    one character that is not a slash. *)
Theorem channel_name_ok_spec (name : string) :
  channel_name_ok name = true ↔
  ∃ prefix body c,
    (prefix = "nixos-" ∨ prefix = "nixpkgs-") ∧
    name = prefix +:+ body +:+ String c "" ∧
    body ≠ "" ∧ has_char "010" body = false ∧ c ≠ "/"%char.
Proof.
  unfold channel_name_ok.
  rewrite orb_true_iff, !andb_true_iff, !str_startswith_spec. split.
  - intros [[[t ->] Hrest]|[[t ->] Hrest]].
    + change 6%nat with (String.length "nixos-") in Hrest.
      rewrite str_drop_app in Hrest.
      apply dotplus_nonslash_spec in Hrest as (body & c & -> & ? & ? & ?).
      exists "nixos-", body, c. auto.
    + change 8%nat with (String.length "nixpkgs-") in Hrest.
      rewrite str_drop_app in Hrest.
      apply dotplus_nonslash_spec in Hrest as (body & c & -> & ? & ? & ?).
      exists "nixpkgs-", body, c. auto.
  - intros (prefix & body & c & [-> | ->] & -> & Hne & Hlf & Hslash).
    + left. split; [by eexists|].
      change 6%nat with (String.length "nixos-"). rewrite str_drop_app.
      apply dotplus_nonslash_spec. by exists body, c.
    + right. split; [by eexists|].
      change 8%nat with (String.length "nixpkgs-"). rewrite str_drop_app.
      apply dotplus_nonslash_spec. by exists body, c.
Qed.

Lemma list_filter_sublist {A} (f : A → bool) (l : list A) :
  List.filter f l `sublist_of` l.
Proof.
  induction l as [|x l IH]; [done|]. simpl.
  destruct (f x); [by apply sublist_skip|by apply sublist_cons].
Qed.

(** X20: the channels selected (lines 152-169).  [get_channels] touches
    nothing and returns the listing of the bucket with entries left out, in
    the order of the listing and each entry at most as often as it is
    listed; every entry returned has a name that passes the pattern, and is
    an item of [CHANNELS_LIST] or contains the non-empty
    [CHANNEL_MATCH_SUBSTRING]; and when both settings are empty nothing is
    selected, although [CHANNELS_LIST.split(",")] is then the list of one
    empty string. *)
Theorem get_channels_selection (cfg : Config) (ext : Extern) (w : World) :
  ∃ chans,
    get_channels cfg ext w = Some (w, Ok chans) ∧
    chans `sublist_of` list_objects ext ∧
    (∀ x, x ∈ chans →
       channel_name_ok x.1 = true ∧
       (x.1 ∈ str_split_comma (CHANNELS_LIST cfg) ∨
        (CHANNEL_MATCH_SUBSTRING cfg ≠ "" ∧
         occurs (CHANNEL_MATCH_SUBSTRING cfg) x.1))) ∧
    (CHANNELS_LIST cfg = "" → CHANNEL_MATCH_SUBSTRING cfg = "" → chans = []).
Proof.
  eexists. split; [reflexivity|]. split; [|split].
  - etrans; apply list_filter_sublist.
  - intros x Hx. apply list_elem_of_In, filter_In in Hx as [Hx Hsel].
    apply filter_In in Hx as [_ Hname]. split; [done|].
    apply orb_true_iff in Hsel as [Hsel|Hsel].
    + left. by apply bool_decide_eq_true in Hsel.
    + right. apply andb_true_iff in Hsel as [Hne Hsub].
      apply negb_true_iff, bool_decide_eq_false in Hne.
      split; [done|]. by apply str_contains_spec.
  - intros Hlist Hsub. rewrite Hlist, Hsub.
    induction (list_objects ext) as [|x l IH]; [done|]. cbn [List.filter].
    destruct (channel_name_ok x.1) eqn:Hname; [|exact IH].
    cbn [List.filter]. rewrite <- IH.
    replace (bool_decide (x.1 ∈ str_split_comma "")) with false; [done|].
    symmetry. apply bool_decide_eq_false. intros Hin.
    apply list_elem_of_singleton in Hin. rewrite Hin in Hname. done.
Qed.
